(** * momepy.dimension: dimension characters of a GeoDataFrame

    A shallow embedding of [momepy/dimension.py].  Every function of the
    module takes a GeoDataFrame [objects], defines a new float column
    [column_name] on it, walks [objects.iterrows()] and stores one value
    per row with [objects.loc[index, column_name] = ...].  The frame is
    mutated in place, so the embedding threads it (together with what was
    printed) through a small state-and-exception monad: when a call
    raises, the frame keeps whatever had been written before. *)

From Stdlib Require Import ZArith Reals Lra Lia Floats.SpecFloat.
From stdpp Require Import base gmap strings list.

(** ** Numbers

    The cells of the numeric columns are Python floats.  The module only
    needs the operations below; they are kept abstract so that the same
    code can be run on IEEE binary64 values and on exact reals. *)

Class Number (V : Type) := {
  nan : V;                       (* float('nan'), what astype('float') makes of None *)
  of_Z : Z → V;                  (* an int operand: 2, 3, 5, len(neighbours) + 1 *)
  three_and_half : V;            (* the literal 3.5 *)
  add : V → V → V;               (* x + y *)
  sub : V → V → V;               (* x - y *)
  mul : V → V → V;               (* x * y *)
  truediv : V → V → V;           (* x / y *)
  floordiv : V → V → V;          (* x // y *)
  num_eqb : V → V → bool         (* x == y *)
}.

(** ** Geometries, cells and frames *)

(** What the module reads from a shapely geometry.  [None] in an optional
    field means that the attribute access raises. *)
Record geometry (V point : Type) := Geometry {
  geom_type : string;                         (* geom.type *)
  geom_area : V;                              (* geom.area *)
  geom_length : V;                            (* geom.length *)
  exterior_area : option V;                   (* Polygon(geom.exterior).area *)
  boundary_coords : option (list point);      (* list(geom.boundary.coords) *)
  hull_exterior_coords : option (list point)  (* geom.convex_hull.exterior.coords *)
}.
Arguments Geometry {V point}.
Arguments geom_type {V point}.
Arguments geom_area {V point}.
Arguments geom_length {V point}.
Arguments exterior_area {V point}.
Arguments boundary_coords {V point}.
Arguments hull_exterior_coords {V point}.

Inductive cell (V point : Type) :=
  | CNone
  | CNum (v : V)
  | CGeom (g : geometry V point).
Arguments CNone {V point}.
Arguments CNum {V point}.
Arguments CGeom {V point}.

(** A frame: the index labels, in row order, and the columns by name. *)
Record DataFrame (V point : Type) := Frame {
  index : list Z;
  columns : gmap string (list (cell V point))
}.
Arguments Frame {V point}.
Arguments index {V point}.
Arguments columns {V point}.

(** libpysal weights: [spatial_weights.neighbors], a dict from an id to the
    list of the ids of its neighbours. *)
Record weights := W { neighbors : gmap Z (list Z) }.

(** ** Exceptions, results, and the monad *)

Inductive key := KStr (s : string) | KLabel (l : Z).

Inductive exn :=
  | KeyError (k : key)
  | AttributeError (attr : string)
  | TypeError
  | IndexError
  | NotImplementedError.

Inductive outcome (A : Type) :=
  | Returned (a : A)
  | Raised (e : exn).
Arguments Returned {A}.
Arguments Raised {A}.

(** What a function hands back: [None], or the frame it was given. *)
Inductive retval := RNone | RObjects.

Record world (V point : Type) := World {
  objects : DataFrame V point;
  stdout : list string
}.
Arguments World {V point}.
Arguments objects {V point}.
Arguments stdout {V point}.

Definition py (V point A : Type) : Type :=
  world V point → world V point * outcome A.

Definition is_KeyError (e : exn) : bool :=
  match e with KeyError _ => true | _ => false end.

Section Dimension.
Context {V : Type} `{Number V} {point : Type}.

(** [make_circle] of [momepy/shape.py]: the triple [(x, y, r)], or [None]. *)
Variable make_circle : list point → option (V * V * V).

Abbreviation cell := (cell V point).
Abbreviation geometry := (geometry V point).
Abbreviation DataFrame := (DataFrame V point).
Abbreviation world := (world V point).
Abbreviation py := (py V point).
Abbreviation row := (gmap string cell).

Definition ret {A} (a : A) : py A := λ w, (w, Returned a).
Definition raise {A} (e : exn) : py A := λ w, (w, Raised e).
Definition bind {A B} (m : py A) (k : A → py B) : py B :=
  λ w, match m w with
       | (w', Returned a) => k a w'
       | (w', Raised e) => (w', Raised e)
       end.

Notation "x <- m ;; k" := (bind m (λ x, k))
  (at level 100, m at next level, right associativity).
Notation "m ;;; k" := (bind m (λ _, k))
  (at level 100, right associativity).

(** [try: m except KeyError: h] *)
Definition try_except_KeyError {A} (m h : py A) : py A :=
  λ w, match m w with
       | (w', Raised e) => if is_KeyError e then h w' else (w', Raised e)
       | r => r
       end.

Definition get_objects : py DataFrame := λ w, (w, Returned (objects w)).
Definition set_objects (df : DataFrame) : py unit :=
  λ w, (World df (stdout w), Returned tt).
Definition print (s : string) : py unit :=
  λ w, (World (objects w) (stdout w ++ [s]), Returned tt).
Definition lift {A} (e : exn) (o : option A) : py A :=
  match o with Some a => ret a | None => raise e end.

(** [for x in xs: s = body s x], with the variable [s] carried along *)
Fixpoint for_fold {A S} (xs : list A) (s : S) (body : S → A → py S) : py S :=
  match xs with
  | [] => ret s
  | x :: xs' => s' <- body s x ;; for_fold xs' s' body
  end.

(** [for x in xs: body x] *)
Fixpoint for_each {A} (xs : list A) (body : A → py unit) : py unit :=
  match xs with
  | [] => ret tt
  | x :: xs' => body x ;;; for_each xs' body
  end.

(** *** Frame operations *)

(** The row at position [i], as the Series [iterrows] and [iloc] build. *)
Definition row_at (df : DataFrame) (i : nat) : row :=
  omap (λ col : list cell, col !! i) (columns df).

(** [objects.iterrows()]: the values are taken from the frame once, when
    the iteration starts; later writes to the frame do not show in the
    rows that are still to come. *)
Definition iterrows (df : DataFrame) : list (Z * row) :=
  imap (λ i k, (k, row_at df i)) (index df).

(** [objects.iloc[n]]: by position, negative positions count from the
    end, anything else is an IndexError. *)
Definition iloc (df : DataFrame) (n : Z) : option row :=
  let len := Z.of_nat (length (index df)) in
  if decide (0 ≤ n < len)%Z then Some (row_at df (Z.to_nat n))
  else if decide (- len ≤ n < 0)%Z then Some (row_at df (Z.to_nat (len + n)))
  else None.

(** [objects[c] = col] *)
Definition setitem (c : string) (col : list cell) (df : DataFrame) : DataFrame :=
  Frame (index df) (<[c := col]> (columns df)).

(** The missing value of column [c]: the frame is a GeoDataFrame, whose
    geometry column holds [None]; every other column written here is a
    float column and holds NaN. *)
Definition missing (c : string) : cell :=
  if decide (c = "geometry") then CNone else CNum nan.

(** A value as column [c] holds it: [None] becomes the missing value of
    the column. *)
Definition to_column (c : string) (v : cell) : cell :=
  match v with CNone => missing c | _ => v end.

(** What column [c] takes: a float column takes numbers and [None], not a
    geometry. *)
Definition takes (c : string) (v : cell) : bool :=
  match v with CGeom _ => bool_decide (c = "geometry") | _ => true end.

Definition set_where (idx : list Z) (k : Z) (v : cell) (col : list cell) : list cell :=
  zip_with (λ l x, if decide (l = k) then v else x) idx col.

(** [objects.loc[k, c] = v]: every row labelled [k] gets [v] in column
    [c]; a column that does not exist yet is created with missing values
    elsewhere.
    (The label always comes from the frame's own index here.) *)
Definition loc_set (k : Z) (c : string) (v : cell) (df : DataFrame) : DataFrame :=
  let col := default (replicate (length (index df)) (missing c)) (columns df !! c) in
  Frame (index df) (<[c := set_where (index df) k (to_column c v) col]> (columns df)).

(** [objects[c].astype('float')], as column [c] holds it once it is
    assigned back: [None] becomes NaN, which the geometry column takes as
    [None] again. *)
Definition astype_float (c : string) (col : list cell) : option (list cell) :=
  mapM (λ x, match x with
             | CNone => Some (missing c)
             | CNum v => Some (CNum v)
             | CGeom _ => None
             end) col.

(** *** Python expressions on cells *)

(** [row[c]] *)
Definition getitem (r : row) (c : string) : py cell :=
  lift (KeyError (KStr c)) (r !! c).

Definition binop (f : V → V → V) (a b : cell) : py cell :=
  match a, b with
  | CNum x, CNum y => ret (CNum (f x y))
  | _, _ => raise TypeError
  end.

(** [a == n] for an int literal [n] *)
Definition eq_int (a : cell) (n : Z) : bool :=
  match a with CNum x => num_eqb x (of_Z n) | _ => false end.

(** [cell.attr] for an attribute of a geometry *)
Definition geom_attr {A} (attr : string) (f : geometry → option A) (a : cell) : py A :=
  match a with
  | CGeom g => lift (AttributeError attr) (f g)
  | _ => raise (AttributeError attr)
  end.

Definition area_of : cell → py cell :=
  geom_attr "area" (λ g, Some (CNum (geom_area g))).
Definition length_of : cell → py cell :=
  geom_attr "length" (λ g, Some (CNum (geom_length g))).
(** [Polygon(cell.exterior).area] *)
Definition exterior_area_of : cell → py cell :=
  geom_attr "exterior" (λ g, CNum <$> exterior_area g).

(** [cell.convex_hull.exterior.coords]: every geometry has a convex hull,
    but a hull that is a point or a segment has no exterior. *)
Definition hull_coords_of (a : cell) : py (list point) :=
  match a with
  | CGeom g => lift (AttributeError "exterior") (hull_exterior_coords g)
  | _ => raise (AttributeError "convex_hull")
  end.

(** *** The preamble every function shares
<<
  objects[column_name] = None
  objects[column_name] = objects[column_name].astype('float')
>> *)
Definition define_new_column (column_name : string) : py unit :=
  df <- get_objects ;;
  set_objects (setitem column_name (replicate (length (index df)) CNone) df) ;;;
  df <- get_objects ;;
  col <- lift (KeyError (KStr column_name)) (columns df !! column_name) ;;
  col' <- lift TypeError (astype_float column_name col) ;;
  set_objects (setitem column_name col' df).

(** [objects.loc[index, column_name] = v]; a value the column does not
    take is a TypeError. *)
Definition store (index : Z) (column_name : string) (v : cell) : py unit :=
  if takes column_name v then
    df <- get_objects ;; set_objects (loc_set index column_name v df)
  else raise TypeError.

(** [for index, row in tqdm(objects.iterrows(), total=objects.shape[0])] *)
Definition for_rows (body : Z → row → py unit) : py unit :=
  df <- get_objects ;;
  for_each (iterrows df) (λ '(index, row), body index row).

(** *** The functions of the module *)

(** [objects.loc[index, column_name] = row['geometry'].area] *)
Definition area (column_name : string) : py retval :=
  define_new_column column_name ;;;
  print "Calculating areas..." ;;;
  for_rows (λ index row,
    g <- getitem row "geometry" ;;
    v <- area_of g ;;
    store index column_name v) ;;;
  print "Areas calculated." ;;;
  ret RObjects.

(** [objects.loc[index, column_name] = row['geometry'].length] *)
Definition perimeter (column_name : string) : py retval :=
  define_new_column column_name ;;;
  print "Calculating perimeters..." ;;;
  for_rows (λ index row,
    g <- getitem row "geometry" ;;
    v <- length_of g ;;
    store index column_name v) ;;;
  print "Perimeters calculated." ;;;
  ret RObjects.

(** [objects.loc[index, column_name] = row[original_column]];
    [original_column] defaults to ['relh2']. *)
Definition height_os (column_name original_column : string) : py retval :=
  define_new_column column_name ;;;
  print "Calculating heights..." ;;;
  for_rows (λ index row,
    v <- getitem row original_column ;;
    store index column_name v) ;;;
  print "Heights defined." ;;;
  ret RObjects.

(** Floors times 3.5 for type 7, times 5 for type 3, times 3 otherwise;
    [floors_column] defaults to ['od_POCET_P'], [floor_type] to ['od_TYP']. *)
Definition height_prg (column_name floors_column floor_type : string) : py retval :=
  define_new_column column_name ;;;
  print "Calculating heights..." ;;;
  for_rows (λ index row,
    t <- getitem row floor_type ;;
    height <-
      (if eq_int t 7 then
         f <- getitem row floors_column ;; binop mul f (CNum three_and_half)
       else
         t' <- getitem row floor_type ;;
         if eq_int t' 3 then
           f <- getitem row floors_column ;; binop mul f (CNum (of_Z 5))
         else
           f <- getitem row floors_column ;; binop mul f (CNum (of_Z 3))) ;;
    store index column_name height) ;;;
  print "Heights defined." ;;;
  ret RObjects.

Definition area_column_not_found (area_column : string) : string :=
  "ERROR: Building area column named " +:+ area_column +:+
  " not found. Define area_column or set area_calculated to False.".

(** [row[area_column] * row[height_column]] under [try] when
    [area_calculated], [row['geometry'].area * row[height_column]]
    otherwise.  Only the second branch has a [return objects]. *)
Definition volume (column_name area_column height_column : string)
    (area_calculated : bool) : py retval :=
  define_new_column column_name ;;;
  print "Calculating volumes..." ;;;
  if area_calculated then
    try_except_KeyError
      (for_rows (λ index row,
         a <- getitem row area_column ;;
         h <- getitem row height_column ;;
         v <- binop mul a h ;;
         store index column_name v) ;;;
       print "Volumes calculated.")
      (print (area_column_not_found area_column)) ;;;
    ret RNone
  else
    for_rows (λ index row,
      g <- getitem row "geometry" ;;
      a <- area_of g ;;
      h <- getitem row height_column ;;
      v <- binop mul a h ;;
      store index column_name v) ;;;
    print "Volumes calculated." ;;;
    ret RObjects.

(** As [volume], with [row[height_column] // 3] for the height; the
    [return objects] is at the level of the function. *)
Definition floor_area (column_name area_column height_column : string)
    (area_calculated : bool) : py retval :=
  define_new_column column_name ;;;
  print "Calculating floor areas..." ;;;
  (if area_calculated then
     try_except_KeyError
       (for_rows (λ index row,
          a <- getitem row area_column ;;
          h <- getitem row height_column ;;
          n <- binop floordiv h (CNum (of_Z 3)) ;;
          v <- binop mul a n ;;
          store index column_name v) ;;;
        print "Floor areas calculated.")
       (print (area_column_not_found area_column))
   else
     for_rows (λ index row,
       g <- getitem row "geometry" ;;
       a <- area_of g ;;
       h <- getitem row height_column ;;
       n <- binop floordiv h (CNum (of_Z 3)) ;;
       v <- binop mul a n ;;
       store index column_name v) ;;;
     print "Floor areas calculated.") ;;;
  ret RObjects.

(** [Polygon(row['geometry'].exterior).area - row[area_column]] under
    [try] when [area_calculated], [... - row['geometry'].area] otherwise.
    The left operand is evaluated first. *)
Definition courtyard_area (column_name area_column : string)
    (area_calculated : bool) : py retval :=
  define_new_column column_name ;;;
  print "Calculating courtyard areas..." ;;;
  (if area_calculated then
     try_except_KeyError
       (for_rows (λ index row,
          g <- getitem row "geometry" ;;
          e <- exterior_area_of g ;;
          a <- getitem row area_column ;;
          v <- binop sub e a ;;
          store index column_name v) ;;;
        print "Core area indices calculated.")
       (print (area_column_not_found area_column))
   else
     for_rows (λ index row,
       g <- getitem row "geometry" ;;
       e <- exterior_area_of g ;;
       g' <- getitem row "geometry" ;;
       a <- area_of g' ;;
       v <- binop sub e a ;;
       store index column_name v) ;;;
     print "Core area indices calculated.") ;;;
  ret RObjects.

(** The two helpers nested in [longest_axis_length]. *)

(** [circ = make_circle(points); return(circ[2] * 2)] *)
Definition longest_axis (points : list point) : py cell :=
  match make_circle points with
  | Some (_, _, r) => ret (CNum (mul r (of_Z 2)))
  | None => raise TypeError
  end.

(** [sort_NoneType] is defined in the function body but the loop below
    does not call it.  ([geom.type is not 'Polygon'] compares two
    interned strings, so it is read as a comparison of their text.) *)
Definition sort_NoneType (geom : cell) : py cell :=
  match geom with
  | CNone => ret (CNum (of_Z 0))
  | CGeom g =>
      if decide (geom_type g ≠ "Polygon") then ret (CNum (of_Z 0))
      else pts <- lift NotImplementedError (boundary_coords g) ;; longest_axis pts
  | CNum _ => raise (AttributeError "type")
  end.

(** [objects.loc[index, column_name] =
      longest_axis(row['geometry'].convex_hull.exterior.coords)] *)
Definition longest_axis_length (column_name : string) : py retval :=
  define_new_column column_name ;;;
  print "Calculating the longest axis..." ;;;
  for_rows (λ index row,
    g <- getitem row "geometry" ;;
    pts <- hull_coords_of g ;;
    v <- longest_axis pts ;;
    store index column_name v) ;;;
  print "The longest axis calculated." ;;;
  ret RObjects.

(** The own area plus the areas of the neighbours, over their number plus
    one.  The neighbours are read from the frame itself, by position.  The
    function has no [return]. *)
Definition effective_mesh (column_name : string) (spatial_weights : weights)
    (area_column : string) : py retval :=
  define_new_column column_name ;;;
  print "Calculating effective mesh size..." ;;;
  for_rows (λ index row,
    neighbours <- lift (KeyError (KLabel index)) (neighbors spatial_weights !! index) ;;
    total_area <- getitem row area_column ;;
    total_area <-
      for_fold neighbours total_area (λ total_area n,
        df <- get_objects ;;
        r <- lift IndexError (iloc df n) ;;
        n_area <- getitem r area_column ;;
        binop add total_area n_area) ;;
    v <- binop truediv total_area (CNum (of_Z (Z.of_nat (length neighbours) + 1))) ;;
    store index column_name v) ;;;
  ret RNone.

End Dimension.

Notation "x <- m ;; k" := (bind m (λ x, k))
  (at level 100, m at next level, right associativity).
Notation "m ;;; k" := (bind m (λ _, k))
  (at level 100, right associativity).

(** ** Python floats: IEEE 754 binary64 *)

Module Binary64.

Definition prec : Z := 53.
Definition emax : Z := 1024.

Definition float := spec_float.

Definition of_int (z : Z) : float := binary_normalize prec emax z 0 false.
Definition fadd : float → float → float := SFadd prec emax.
Definition fsub : float → float → float := SFsub prec emax.
Definition fmul : float → float → float := SFmul prec emax.
Definition fdiv : float → float → float := SFdiv prec emax.
Definition feqb : float → float → bool := SFeqb.
Definition fltb : float → float → bool := SFltb.

Definition is_zero (x : float) : bool :=
  match x with S754_zero _ => true | _ => false end.

Definition sign_bit (x : float) : bool :=
  match x with
  | S754_zero s | S754_infinity s | S754_finite s _ _ => s
  | S754_nan => false
  end.

(** C's [fmod]: the exact remainder of the truncated quotient, with the
    sign of the dividend. *)
Definition fmod (x y : float) : float :=
  match x, y with
  | S754_nan, _ | _, S754_nan => S754_nan
  | S754_infinity _, _ => S754_nan
  | _, S754_zero _ => S754_nan
  | S754_zero _, _ => x
  | S754_finite _ _ _, S754_infinity _ => x
  | S754_finite sx mx ex, S754_finite _ my ey =>
      let e := Z.min ex ey in
      let r := Z.rem (Z.shiftl (Zpos mx) (ex - e)) (Z.shiftl (Zpos my) (ey - e)) in
      binary_normalize prec emax (cond_Zopp sx r) e sx
  end.

(** C's [floor] *)
Definition floor (x : float) : float :=
  match x with
  | S754_finite s m e =>
      if (0 <=? e)%Z then x
      else binary_normalize prec emax (Z.shiftr (cond_Zopp s (Zpos m)) (- e)) 0 s
  | _ => x
  end.

(** [x // y] on floats, after CPython's [float_floor_div].  A zero divisor
    raises ZeroDivisionError there; the module only divides by the
    literal 3, and NaN stands for that case here. *)
Definition ffloordiv (vx wx : float) : float :=
  if is_zero wx then S754_nan else
  let mod_ := fmod vx wx in
  let div := fdiv (fsub vx mod_) wx in
  let div :=
    if is_zero mod_ then div
    else if negb (Bool.eqb (fltb wx (S754_zero false)) (fltb mod_ (S754_zero false)))
         then fsub div (of_int 1) else div in
  if is_zero div then S754_zero (sign_bit (fdiv vx wx))
  else
    let fl := floor div in
    if fltb (fdiv (of_int 1) (of_int 2)) (fsub div fl) then fadd fl (of_int 1) else fl.

#[global] Instance number : Number float := {|
  nan := S754_nan;
  of_Z := of_int;
  three_and_half := fdiv (of_int 7) (of_int 2);
  add := fadd;
  sub := fsub;
  mul := fmul;
  truediv := fdiv;
  floordiv := ffloordiv;
  num_eqb := feqb
|}.

(** The float literal [0.1]: 0x1.999999999999ap-4. *)
Definition one_tenth : float := S754_finite false 7205759403792794 (-56).

End Binary64.

(** ** Exact arithmetic: the reals, with one more value for NaN *)

#[global] Instance R_eq_dec : EqDecision R := Req_dec_T.
#[global] Instance Rle_decision (x y : R) : Decision (x <= y)%R := Rle_dec x y.

Module Exact.

Abbreviation num := (option R).

Definition lift2 (f : R → R → R) (x y : num) : num :=
  match x, y with Some a, Some b => Some (f a b) | _, _ => None end.

(** Division by zero has no value. *)
Definition div_by (f : R → R → R) (x y : num) : num :=
  match x, y with
  | Some a, Some b => if decide (b = 0%R) then None else Some (f a b)
  | _, _ => None
  end.

#[global] Instance number : Number num := {|
  nan := None;
  of_Z := λ z, Some (IZR z);
  three_and_half := Some (7 / 2)%R;
  add := lift2 Rplus;
  sub := lift2 Rminus;
  mul := lift2 Rmult;
  truediv := div_by Rdiv;
  floordiv := div_by (λ a b, IZR (Zfloor (a / b)));
  num_eqb := λ x y, match x, y with
                    | Some a, Some b => bool_decide (a = b)
                    | _, _ => false
                    end
|}.

End Exact.

(** ** The minimal enclosing circle *)

Module MEC.

Local Open Scope R_scope.

Definition point : Type := R * R.

(** The triple [(x, y, r)] that [make_circle] returns. *)
Definition circle : Type := R * R * R.

Definition center (c : circle) : point := (c.1.1, c.1.2).
Definition radius (c : circle) : R := c.2.

Definition dist (a b : point) : R :=
  sqrt ((a.1 - b.1) * (a.1 - b.1) + (a.2 - b.2) * (a.2 - b.2)).

(** Modelled from the spec: the test "point inside circle" of the missing
    [make_circle].  The arithmetic is exact here, so a point on the
    boundary is never rejected and the tolerance that absorbs
    floating-point error is not needed. *)
Definition is_in_circle (c : circle) (p : point) : bool :=
  bool_decide (dist (center c) p <= radius c).

(** Modelled from the spec: the circle of the missing [make_circle] that
    has [a] and [b] as the end points of a diameter. *)
Definition make_diameter (a b : point) : circle :=
  let m : point := ((a.1 + b.1) / 2, (a.2 + b.2) / 2) in
  (m, dist m a).

(** Modelled from the spec: the circle of the missing [make_circle]
    through three points; there is none when they are collinear. *)
Definition make_circumcircle (a b c : point) : option circle :=
  let d := (a.1 * (b.2 - c.2) + b.1 * (c.2 - a.2) + c.1 * (a.2 - b.2)) * 2 in
  if decide (d = 0) then None
  else
    let na := a.1 * a.1 + a.2 * a.2 in
    let nb := b.1 * b.1 + b.2 * b.2 in
    let nc := c.1 * c.1 + c.2 * c.2 in
    let m : point :=
      ((na * (b.2 - c.2) + nb * (c.2 - a.2) + nc * (a.2 - b.2)) / d,
       (na * (c.1 - b.1) + nb * (a.1 - c.1) + nc * (b.1 - a.1)) / d) in
    Some (m, dist m a).

(** Modelled from the spec: third level of the cascade of the missing
    [make_circle]: [p] and [q] are on the boundary, [c] is the current
    circle, [todo] the points still to be looked at. *)
Fixpoint two_boundary_points (todo : list point) (p q : point) (c : circle)
    : option circle :=
  match todo with
  | [] => Some c
  | r :: todo' =>
      if is_in_circle c r then two_boundary_points todo' p q c
      else c' ← make_circumcircle p q r; two_boundary_points todo' p q c'
  end.

(** Modelled from the spec: second level of the cascade of the missing
    [make_circle]: [p] is on the boundary; [seen] are the points the
    current circle [c] already bounds. *)
Fixpoint one_boundary_point (seen todo : list point) (p : point) (c : circle)
    : option circle :=
  match todo with
  | [] => Some c
  | q :: todo' =>
      if is_in_circle c q then one_boundary_point (seen ++ [q]) todo' p c
      else
        c' ← two_boundary_points seen p q (make_diameter p q);
        one_boundary_point (seen ++ [q]) todo' p c'
  end.

(** Modelled from the spec: first level of the cascade of the missing
    [make_circle]: the points in their given order, with the current
    circle ([None] before the first point). *)
Fixpoint incremental (seen todo : list point) (c : option circle)
    : option circle :=
  match todo with
  | [] => c
  | p :: todo' =>
      if from_option (λ c, is_in_circle c p) false c
      then incremental (seen ++ [p]) todo' c
      else
        c' ← one_boundary_point [] seen p (p, 0);
        incremental (seen ++ [p]) todo' (Some c')
  end.

(** Modelled from the spec: [make_circle] is imported from
    [momepy/shape.py], whose text is missing.  This is the solver of
    section 4.1 over exact reals: a single point gives the circle of
    radius 0 at that point, two points give the circle they are a diameter
    of, and the general case takes the points in their given order, keeps
    a current circle for the points taken so far and, for a point outside
    it, recomputes with that point on the boundary, cascading to a second
    and a third boundary point.  No points at all is the contract
    violation [DegenerateInput]: there is no circle. *)
Definition enclosingCircle (points : list point) : option circle :=
  match points with
  | [] => None
  | [p] => Some (p, 0)
  | [p; q] => Some (make_diameter p q)
  | _ => incremental [] points None
  end.

(** *** Discs as predicates on lists of points *)

Definition sq_dist (a b : point) : R :=
  (a.1 - b.1) * (a.1 - b.1) + (a.2 - b.2) * (a.2 - b.2).

Definition encloses (c : circle) (ps : list point) : Prop :=
  ∀ p, p ∈ ps → dist (center c) p <= radius c.

Definition on_boundary (c : circle) (bs : list point) : Prop :=
  ∀ p, p ∈ bs → dist (center c) p = radius c.

Definition candidate (c : circle) (ps bs : list point) : Prop :=
  0 <= radius c ∧ encloses c ps ∧ on_boundary c bs.

(** [c] is a smallest disc that bounds [ps] and has [bs] on its boundary. *)
Definition smallest (c : circle) (ps bs : list point) : Prop :=
  candidate c ps bs ∧ ∀ c', candidate c' ps bs → radius c <= radius c'.

End MEC.

(** ** What a call may change

    The vocabulary of the statements below: which part of the frame a
    computation may touch, what it may hand back, and the calls of the
    module as data. *)

Section Effects.
Context {V : Type} `{Number V} {point : Type}.

(** [df'] is [df] except, possibly, for column [c]. *)
Definition same_but (c : string) (df df' : DataFrame V point) : Prop :=
  index df' = index df ∧ ∀ c', c' ≠ c → columns df' !! c' = columns df !! c'.

(** Column [c] exists and holds one cell per row. *)
Definition column_full (c : string) (df : DataFrame V point) : Prop :=
  ∃ col, columns df !! c = Some col ∧ length col = length (index df).

(** Run from a frame where column [c] is in place, [m] changes nothing but
    the cells of that column, whether it returns or raises. *)
Definition touches_only {A} (c : string) (m : py V point A) : Prop :=
  ∀ w, column_full c (objects w) →
       same_but c (objects w) (objects (m w).1) ∧ column_full c (objects (m w).1).


(** The frame after [objects.loc[k, c] = v] for each [(k, v)] in turn. *)
Definition store_all (c : string) (kvs : list (Z * cell V point))
    (df : DataFrame V point) : DataFrame V point :=
  foldl (λ df kv, loc_set kv.1 c kv.2 df) df kvs.

(** The numbers of column [c], when it exists and holds nothing else. *)
Definition numeric_column (df : DataFrame V point) (c : string) : option (list V) :=
  columns df !! c ≫= mapM (λ x, match x with CNum v => Some v | _ => None end).

(** The geometries of the column "geometry", when it holds nothing else. *)
Definition geometry_column (df : DataFrame V point) : option (list (geometry V point)) :=
  columns df !! "geometry" ≫= mapM (λ x, match x with CGeom g => Some g | _ => None end).

(** Where [volume] and [floor_area] take the areas from. *)
Definition area_source (df : DataFrame V point) (area_column : string)
    (area_calculated : bool) : option (list V) :=
  if area_calculated then numeric_column df area_column
  else (λ gs : list (geometry V point), geom_area <$> gs) <$> geometry_column df.

Definition area_source_column (area_column : string) (area_calculated : bool) : string :=
  if area_calculated then area_column else "geometry".

(** Twice the radius of the circle around the convex hull of [g], when the
    hull has an exterior ring and [make_circle] returns a circle for it. *)
Definition axis_of (make_circle : list point → option (V * V * V))
    (g : geometry V point) : option V :=
  pts ← hull_exterior_coords g;
  c ← make_circle pts;
  Some (mul c.2 (of_Z 2)).

(** The last line a pass under [try] prints: [done_] when there was no
    row to trip over, [missing] otherwise. *)
Definition last_message (df : DataFrame V point) (done_ missing : string) : string :=
  match index df with [] => done_ | _ :: _ => missing end.

(** The geometry of the first row, if the frame has a geometry column, is
    a geometry with an exterior ring. *)
Definition first_row_has_exterior (df : DataFrame V point) : Prop :=
  match index df, columns df !! "geometry" with
  | _ :: _, Some col => ∃ g, col !! 0 = Some (CGeom g) ∧ is_Some (exterior_area g)
  | _, _ => True
  end.

(** The position [iloc] resolves [n] to in a frame of [len] rows. *)
Definition position (len : nat) (n : Z) : nat :=
  if decide (0 ≤ n)%Z then Z.to_nat n else Z.to_nat (Z.of_nat len + n).

Definition in_iloc_range (len : nat) (n : Z) : Prop :=
  (- Z.of_nat len ≤ n < Z.of_nat len)%Z.

(** The value [effective_mesh] computes for the row at position [i] from
    the list [areas] of the area column and the neighbours [ns]. *)
Definition mesh_value (areas : list V) (i : nat) (ns : list Z) : V :=
  let area_at (j : nat) := default nan (areas !! j) in
  truediv
    (foldl add (area_at i) ((λ n, area_at (position (length areas) n)) <$> ns))
    (of_Z (Z.of_nat (length ns) + 1)).

(** The frame has rows and a geometry column, and what the first row holds
    there is not a geometry with an exterior ring: it is missing, or it
    is a geometry without one. *)
Definition first_row_lacks_exterior (df : DataFrame V point) : Prop :=
  match index df, columns df !! "geometry" with
  | _ :: _, Some col =>
      match col !! 0 with
      | Some (CGeom g) => exterior_area g = None
      | Some _ => True
      | None => False
      end
  | _, _ => False
  end.





End Effects.

(** A call of one of the functions of the module, with its arguments. *)
Inductive metric_call :=
  | Area (column_name : string)
  | Perimeter (column_name : string)
  | HeightOs (column_name original_column : string)
  | HeightPrg (column_name floors_column floor_type : string)
  | Volume (column_name area_column height_column : string) (area_calculated : bool)
  | FloorArea (column_name area_column height_column : string) (area_calculated : bool)
  | CourtyardArea (column_name area_column : string) (area_calculated : bool)
  | LongestAxisLength (column_name : string)
  | EffectiveMesh (column_name : string) (spatial_weights : weights) (area_column : string).

Definition column_of (call : metric_call) : string :=
  match call with
  | Area c | Perimeter c | HeightOs c _ | HeightPrg c _ _ | Volume c _ _ _
  | FloorArea c _ _ _ | CourtyardArea c _ _ | LongestAxisLength c
  | EffectiveMesh c _ _ => c
  end.

Definition run_call {V : Type} `{Number V} {point : Type}
    (make_circle : list point → option (V * V * V)) (call : metric_call)
    : py V point retval :=
  match call with
  | Area c => area c
  | Perimeter c => perimeter c
  | HeightOs c o => height_os c o
  | HeightPrg c f t => height_prg c f t
  | Volume c a h b => volume c a h b
  | FloorArea c a h b => floor_area c a h b
  | CourtyardArea c a b => courtyard_area c a b
  | LongestAxisLength c => longest_axis_length make_circle c
  | EffectiveMesh c sw a => effective_mesh c sw a
  end.

(** ** Sample data *)

(** Modelled from the spec: the missing [make_circle] over exact reals;
    the triple of the solver above, turned into three numbers. *)
Definition exact_make_circle (points : list MEC.point)
    : option (Exact.num * Exact.num * Exact.num) :=
  (λ c : MEC.circle, (Some c.1.1, Some c.1.2, Some c.2)) <$> MEC.enclosingCircle points.

Module Samples.

Import Binary64.

Definition fpoint : Type := float * float.

Definition f (z : Z) : float := of_int z.

(** A 10 by 10 footprint without holes. *)
Definition ring10 : list fpoint :=
  [(f 0, f 0); (f 10, f 0); (f 10, f 10); (f 0, f 10); (f 0, f 0)].
Definition footprint : geometry float fpoint :=
  Geometry "Polygon" (f 100) (f 40) (Some (f 100)) (Some ring10) (Some ring10).

(** A road centre line: not a polygon, but its convex hull is one. *)
Definition centre_line : geometry float fpoint :=
  Geometry "LineString" (f 0) (f 20) None None (Some ring10).

(** One building: area 100, height 9. *)
Definition one_building : world float fpoint :=
  World (Frame [0%Z]
           (<["geometry" := [CGeom footprint]]>
            (<["area" := [CNum (f 100)]]>
             (<["height" := [CNum (f 9)]]> ∅)))) [].

(** Two buildings with heights but no area column. *)
Definition no_area_column : world float fpoint :=
  World (Frame [0%Z; 1%Z]
           (<["geometry" := [CGeom footprint; CGeom footprint]]>
            (<["height" := [CNum (f 9); CNum (f 12)]]> ∅))) [].

(** One row whose geometry is missing. *)
Definition missing_geometry : world float fpoint :=
  World (Frame [0%Z] (<["geometry" := [CNone]]> ∅)) [].

(** One row whose geometry is a line. *)
Definition one_line : world float fpoint :=
  World (Frame [0%Z] (<["geometry" := [CGeom centre_line]]> ∅)) [].

(** Three plots of area 0.1 each. *)
Definition three_plots : world float fpoint :=
  World (Frame [0%Z; 1%Z; 2%Z]
           (<["area" := [CNum one_tenth; CNum one_tenth; CNum one_tenth]]> ∅)) [].

(** Every plot is a neighbour of the two others. *)
Definition all_neighbours : weights :=
  W (<[0%Z := [1%Z; 2%Z]]> (<[1%Z := [0%Z; 2%Z]]> (<[2%Z := [0%Z; 1%Z]]> ∅))).

(** The first plot names a neighbour -1, which is the id of no plot. *)
Definition neighbour_minus_one : weights :=
  W (<[0%Z := [(-1)%Z]]> (<[1%Z := [0%Z]]> (<[2%Z := [0%Z]]> ∅))).


(** The square with side 2, over exact reals. *)
Definition ring2 : list MEC.point :=
  [(0, 0); (2, 0); (2, 2); (0, 2); (0, 0)]%R.
Definition square2 : geometry Exact.num MEC.point :=
  Geometry "Polygon" (Some 4%R) (Some 8%R) (Some (Some 4%R)) (Some ring2) (Some ring2).
Definition one_square : world Exact.num MEC.point :=
  World (Frame [0%Z] (<["geometry" := [CGeom square2]]> ∅)) [].

End Samples.

(** ** More vocabulary *)

Section MoreEffects.
Context {V : Type} `{Number V} {point : Type}.


(** A cell of a float column: a number, or nothing. *)
Definition number_or_None (x : cell V point) : Prop :=
  x = CNone ∨ ∃ v, x = CNum v.


(** [m] prints nothing. *)
Definition prints_nothing {A} (m : py V point A) : Prop :=
  ∀ w, stdout (m w).1 = stdout w.

End MoreEffects.

(** The last position of label [k] in an index. *)
Fixpoint last_position (idx : list Z) (k : Z) : option nat :=
  match idx with
  | [] => None
  | l :: idx' =>
      match last_position idx' k with
      | Some j => Some (S j)
      | None => if decide (l = k) then Some 0 else None
      end
  end.

(** What a call hands back when it returns. *)
Definition returned_by (call : metric_call) : retval :=
  match call with
  | EffectiveMesh _ _ _ | Volume _ _ _ true => RNone
  | _ => RObjects
  end.

(** The column the pass of a call reads first in every row, for the calls
    that read it outside a [try] ([effective_mesh] looks into the weights
    first). *)
Definition first_read (call : metric_call) : option string :=
  match call with
  | Area _ | Perimeter _ | LongestAxisLength _
  | Volume _ _ _ false | FloorArea _ _ _ false | CourtyardArea _ _ false => Some "geometry"
  | HeightOs _ o => Some o
  | HeightPrg _ _ t => Some t
  | _ => None
  end.

(** The line the [except KeyError] branch of a call prints, for the calls
    that have one. *)
Definition error_line (call : metric_call) : option string :=
  match call with
  | Volume _ a _ true | FloorArea _ a _ true | CourtyardArea _ a true =>
      Some (area_column_not_found a)
  | _ => None
  end.

(** The attribute a call takes first from [row['geometry']], for the
    calls that start their rows with the geometry. *)
Definition geometry_attribute (call : metric_call) : option string :=
  match call with
  | Area _ | Volume _ _ _ false | FloorArea _ _ _ false => Some "area"
  | Perimeter _ => Some "length"
  | CourtyardArea _ _ _ => Some "exterior"
  | LongestAxisLength _ => Some "convex_hull"
  | _ => None
  end.

(** The first line a call prints. *)
Definition first_line (call : metric_call) : string :=
  match call with
  | Area _ => "Calculating areas..."
  | Perimeter _ => "Calculating perimeters..."
  | HeightOs _ _ | HeightPrg _ _ _ => "Calculating heights..."
  | Volume _ _ _ _ => "Calculating volumes..."
  | FloorArea _ _ _ _ => "Calculating floor areas..."
  | CourtyardArea _ _ _ => "Calculating courtyard areas..."
  | LongestAxisLength _ => "Calculating the longest axis..."
  | EffectiveMesh _ _ _ => "Calculating effective mesh size..."
  end.

(** The line a call prints after its pass; [effective_mesh] prints none. *)
Definition closing_lines (call : metric_call) : list string :=
  match call with
  | Area _ => ["Areas calculated."]
  | Perimeter _ => ["Perimeters calculated."]
  | HeightOs _ _ | HeightPrg _ _ _ => ["Heights defined."]
  | Volume _ _ _ _ => ["Volumes calculated."]
  | FloorArea _ _ _ _ => ["Floor areas calculated."]
  | CourtyardArea _ _ _ => ["Core area indices calculated."]
  | LongestAxisLength _ => ["The longest axis calculated."]
  | EffectiveMesh _ _ _ => []
  end.

Module MoreSamples.

Import Binary64 Samples.

(** A footprint of 10 by 10 with a courtyard of 4 by 4. *)
Definition with_courtyard : geometry float fpoint :=
  Geometry "Polygon" (f 84) (f 56) (Some (f 100)) None (Some ring10).

(** Two buildings with everything the functions read; the second has a
    courtyard, the first is of type 7, the second of type 3. *)
Definition two_buildings : world float fpoint :=
  World (Frame [0%Z; 1%Z]
           (<["geometry" := [CGeom footprint; CGeom with_courtyard]]>
            (<["area" := [CNum (f 100); CNum (f 84)]]>
             (<["height" := [CNum (f 9); CNum (f 12)]]>
              (<["relh2" := [CNum (f 9); CNone]]>
               (<["od_POCET_P" := [CNum (f 3); CNum (f 2)]]>
                (<["od_TYP" := [CNum (f 7); CNum (f 3)]]> ∅))))))) [].

(** Three buildings, the first two under the same label. *)
Definition duplicate_labels : world float fpoint :=
  World (Frame [5%Z; 5%Z; 7%Z]
           (<["geometry" := [CGeom footprint; CGeom with_courtyard; CGeom footprint]]> ∅))
        [].

(** Three rows, the geometry of the second is missing. *)
Definition second_geometry_missing : world float fpoint :=
  World (Frame [0%Z; 1%Z; 2%Z]
           (<["geometry" := [CGeom footprint; CNone; CGeom with_courtyard]]> ∅)) [].

(** Two buildings with areas but no height column. *)
Definition no_height_column : world float fpoint :=
  World (Frame [0%Z; 1%Z]
           (<["geometry" := [CGeom footprint; CGeom with_courtyard]]>
            (<["area" := [CNum (f 100); CNum (f 84)]]> ∅))) [].

(** A point: its convex hull is the point itself, which has no exterior. *)
Definition a_point : geometry float fpoint :=
  Geometry "Point" (f 0) (f 0) None None None.

(** Two rows, the second is a point. *)
Definition second_is_point : world float fpoint :=
  World (Frame [0%Z; 1%Z] (<["geometry" := [CGeom footprint; CGeom a_point]]> ∅)) [].

(** A circle for the 10 by 10 footprint, whatever the points. *)
Definition some_circle (points : list fpoint) : option (float * float * float) :=
  Some (f 5, f 5, f 7).



(** Three plots of area 0.1 each, labelled 10, 11 and 12. *)
Definition plots_from_ten : world float fpoint :=
  World (Frame [10%Z; 11%Z; 12%Z]
           (<["area" := [CNum one_tenth; CNum one_tenth; CNum one_tenth]]> ∅)) [].

(** Weights for the labels 10, 11 and 12 whose neighbours, 0 and 1, are
    the ids of no plot. *)
Definition strangers : weights :=
  W (<[10%Z := [1%Z]]> (<[11%Z := [0%Z]]> (<[12%Z := [0%Z]]> ∅))).

(** The square with side 4, over exact reals. *)
Definition ring4 : list MEC.point :=
  [(0, 0); (4, 0); (4, 4); (0, 4); (0, 0)]%R.
Definition square4 : geometry Exact.num MEC.point :=
  Geometry "Polygon" (Some 16%R) (Some 16%R) (Some (Some 16%R)) (Some ring4) (Some ring4).

(** The squares with side 2 and side 4 under one label. *)
Definition same_label_squares : world Exact.num MEC.point :=
  World (Frame [0%Z; 0%Z] (<["geometry" := [CGeom square2; CGeom square4]]> ∅)) [].

(** A line, over exact reals: its convex hull is a segment, which has no
    exterior ring. *)
Definition segment : geometry Exact.num MEC.point :=
  Geometry "LineString" (Some 0%R) (Some 2%R) None None None.

(** The square with side 2, then a line. *)
Definition square_then_line : world Exact.num MEC.point :=
  World (Frame [0%Z; 1%Z] (<["geometry" := [CGeom square2; CGeom segment]]> ∅)) [].

(** A frame without rows. *)
Definition no_rows : world float fpoint :=
  World (Frame [] (<["geometry" := []]> ∅)) [].

End MoreSamples.

(** * Proofs *)

Section Run.
Context {V : Type} `{Number V} {point : Type}.

#[local] Abbreviation cell := (cell V point).
#[local] Abbreviation DataFrame := (DataFrame V point).
#[local] Abbreviation world := (world V point).
#[local] Abbreviation py := (py V point).
#[local] Abbreviation row := (gmap string cell).

(** ** Running the monad *)

Lemma bind_returned {A B} (m : py A) (k : A → py B) w w' a :
  m w = (w', Returned a) → bind m k w = k a w'.
Proof. unfold bind. by intros ->. Qed.

Lemma bind_raised {A B} (m : py A) (k : A → py B) w w' e :
  m w = (w', Raised e) → bind m k w = (w', Raised e).
Proof. unfold bind. by intros ->. Qed.

Lemma astype_float_None (c : string) (n : nat) :
  astype_float c (replicate n (@CNone V point)) = Some (replicate n (missing c)).
Proof.
  unfold astype_float. apply mapM_Some.
  induction n as [|n IH]; simpl; by constructor.
Qed.

(** The preamble leaves the new column in place, one missing value per
    row. *)
Lemma define_new_column_run (c : string) (w : world) :
  define_new_column c w =
    (World (setitem c (replicate (length (index (objects w))) (missing c)) (objects w))
           (stdout w), Returned tt).
Proof.
  unfold define_new_column, bind, get_objects, set_objects, setitem; simpl.
  rewrite lookup_insert_eq. simpl. rewrite astype_float_None. simpl.
  by rewrite insert_insert_eq.
Qed.


(** ** Frames that differ in one column *)

Lemma same_but_refl c (df : DataFrame) : same_but c df df.
Proof. by split. Qed.

Lemma same_but_trans c (df1 df2 df3 : DataFrame) :
  same_but c df1 df2 → same_but c df2 df3 → same_but c df1 df3.
Proof.
  intros [Hi1 Hc1] [Hi2 Hc2]. split; [congruence|].
  intros c' Hc'. by rewrite Hc2, Hc1.
Qed.

Lemma set_where_length idx k (v : cell) col :
  length col = length idx → length (set_where idx k v col) = length idx.
Proof. intros Hl. unfold set_where. rewrite length_zip_with. lia. Qed.

Lemma loc_set_same_but k c v (df : DataFrame) : same_but c df (loc_set k c v df).
Proof. split; [done|]. intros c' Hc'. simpl. by rewrite lookup_insert_ne. Qed.

Lemma loc_set_column_full k c v (df : DataFrame) :
  column_full c df → column_full c (loc_set k c v df).
Proof.
  intros (col & Hcol & Hlen). eexists. simpl. rewrite lookup_insert_eq, Hcol. simpl.
  split; [done|]. by apply set_where_length.
Qed.

(** ** A pass that stores one value per row *)

Lemma for_each_ext {A} (xs : list A) (f g : A → py unit) (w : world) :
  (∀ x w, f x w = g x w) → for_each xs f w = for_each xs g w.
Proof.
  intros Hfg. revert w. induction xs as [|x xs IH]; intros w; simpl; [done|].
  unfold bind. rewrite Hfg. destruct (g x w) as [w' [[]|e]]; [apply IH|done].
Qed.

Lemma for_rows_run (body : Z → row → py unit) (w : world) :
  for_rows body w = for_each (iterrows (objects w)) (λ kr, body kr.1 kr.2) w.
Proof.
  unfold for_rows, bind, get_objects. apply for_each_ext. by intros [k r].
Qed.

Lemma iterrows_lookup (df : DataFrame) (i : nat) :
  iterrows df !! i = (λ k, (k, row_at df i)) <$> index df !! i.
Proof. unfold iterrows. by rewrite list_lookup_imap. Qed.

Lemma iterrows_keys (df : DataFrame) : (iterrows df).*1 = index df.
Proof.
  apply list_eq. intros i. rewrite list_lookup_fmap, iterrows_lookup.
  by destruct (index df !! i).
Qed.

Lemma row_at_lookup (df : DataFrame) (i : nat) (c : string) :
  row_at df i !! c = columns df !! c ≫= (.!! i).
Proof. unfold row_at. by rewrite lookup_omap. Qed.

(** If, in every world that satisfies the invariant [P], the body of row
    [i] stores [vs !! i] and does nothing else, the pass stores them all. *)
Lemma for_each_stores (c : string) (P : world → Prop)
    (body : Z * row → py unit) :
  (∀ w k v, P w → P (World (loc_set k c v (objects w)) (stdout w))) →
  ∀ (rows : list (Z * row)) (vs : list cell) (w : world),
  Forall2 (λ kr v, ∀ w, P w →
             body kr w = (World (loc_set kr.1 c v (objects w)) (stdout w), Returned tt))
          rows vs →
  P w →
  for_each rows body w =
    (World (store_all c (zip rows.*1 vs) (objects w)) (stdout w), Returned tt).
Proof.
  intros HP rows vs w Hall. revert w.
  induction Hall as [|kr v rows vs Hkr _ IH]; intros w Hw; simpl.
  { by destruct w. }
  erewrite bind_returned; [|by apply Hkr]. rewrite IH; [done|by apply HP].
Qed.

Lemma set_where_insert (idx : list Z) (j : nat) (k : Z) (v : cell) (col : list cell) :
  NoDup idx → idx !! j = Some k → length col = length idx →
  set_where idx k v col = <[j := v]> col.
Proof.
  intros Hnd Hj Hlen. apply list_eq. intros i. unfold set_where.
  rewrite lookup_zip_with.
  destruct (decide (i = j)) as [->|Hij].
  - rewrite Hj. simpl. rewrite list_lookup_insert_eq.
    + destruct (col !! j) eqn:Hc; simpl; [by rewrite decide_True|].
      apply lookup_ge_None in Hc. apply lookup_lt_Some in Hj. lia.
    + apply lookup_lt_Some in Hj. lia.
  - rewrite list_lookup_insert_ne by done.
    destruct (idx !! i) as [k'|] eqn:Hi; simpl.
    + destruct (col !! i); simpl; [|done]. rewrite decide_False; [done|].
      intros ->. apply Hij. by eapply NoDup_lookup.
    + apply lookup_ge_None in Hi. symmetry. apply lookup_ge_None. lia.
Qed.

Lemma store_all_column (c : string) (kvs : list (Z * cell)) (df : DataFrame) (col : list cell) :
  columns df !! c = Some col →
  store_all c kvs df =
    Frame (index df)
      (<[c := foldl (λ col kv, set_where (index df) kv.1 (to_column c kv.2) col) col kvs]>
         (columns df)).
Proof.
  revert df col. induction kvs as [|[k v] kvs IH]; intros df col Hcol; simpl.
  { rewrite insert_id by done. by destruct df. }
  erewrite IH; [|by simpl; rewrite lookup_insert_eq].
  simpl. rewrite Hcol. simpl. by rewrite insert_insert_eq.
Qed.

Lemma foldl_set_where (c : string) (idx : list Z) (vs col : list cell) (j : nat) :
  NoDup idx → length vs = length idx → length col = length idx →
  foldl (λ col kv, set_where idx kv.1 (to_column c kv.2) col) col
        (zip (take j idx) (take j vs))
  = take j (to_column c <$> vs) ++ drop j col.
Proof.
  intros Hnd Hvs Hcol. induction j as [|j IH]; [done|].
  destruct (decide (j < length idx)) as [Hj|Hj].
  - destruct (lookup_lt_is_Some_2 idx j Hj) as [k Hk].
    destruct (lookup_lt_is_Some_2 vs j ltac:(lia)) as [v Hv].
    destruct (lookup_lt_is_Some_2 col j ltac:(lia)) as [x Hx].
    rewrite (take_S_r idx j k), (take_S_r vs j v) by done.
    rewrite zip_with_app by (rewrite !length_take; lia).
    rewrite foldl_app, IH. simpl.
    rewrite (set_where_insert idx j) by
      (try done; rewrite length_app, length_take, length_drop, length_fmap; lia).
    rewrite (take_S_r _ j (to_column c v)) by (by rewrite list_lookup_fmap, Hv).
    rewrite insert_app_r_alt by (rewrite length_take, length_fmap; lia).
    rewrite length_take, length_fmap.
    replace (j - j `min` length vs) with 0 by lia.
    rewrite (drop_S col x j) by done. simpl. by rewrite <- ?app_assoc.
  - rewrite !take_ge in * by (rewrite ?length_fmap; lia).
    rewrite !drop_ge in * by lia. done.
Qed.

(** With distinct labels, storing [vs] row by row leaves exactly [vs] in
    the column. *)
Lemma store_all_rows (c : string) (vs : list cell) (df : DataFrame) :
  NoDup (index df) → length vs = length (index df) → column_full c df →
  store_all c (zip (index df) vs) df =
    Frame (index df) (<[c := to_column c <$> vs]> (columns df)).
Proof.
  intros Hnd Hvs (col & Hcol & Hlen). rewrite (store_all_column c _ df col Hcol).
  do 2 f_equal.
  pose proof (foldl_set_where c (index df) vs col (length (index df)) Hnd Hvs Hlen) as Hf.
  rewrite !take_ge, drop_ge, app_nil_r in Hf by (rewrite ?length_fmap; lia). done.
Qed.

(** The pass of a function, started right after its preamble: when the
    body of each row stores [vs !! i], whatever the other rows have stored
    in column [c] meanwhile, the column ends up holding [vs]. *)
Lemma for_rows_stores (c : string) (body : Z → row → py unit) (vs : list cell)
    (df : DataFrame) (out : list string) :
  let df1 := setitem c (replicate (length (index df)) (missing c)) df in
  NoDup (index df) →
  length vs = length (index df) →
  (∀ i k v w, index df !! i = Some k → vs !! i = Some v →
     same_but c df1 (objects w) →
     body k (row_at df1 i) w = (World (loc_set k c v (objects w)) (stdout w), Returned tt)) →
  for_rows body (World df1 out) =
    (World (Frame (index df) (<[c := to_column c <$> vs]> (columns df))) out, Returned tt).
Proof.
  intros df1 Hnd Hlen Hbody. rewrite for_rows_run. simpl.
  assert (HP : ∀ (w : world) k (v : cell), same_but c df1 (objects w) →
             same_but c df1 (objects (World (loc_set k c v (objects w)) (stdout w)))).
  { intros w k v Hw. simpl. eapply same_but_trans; [exact Hw|]. apply loc_set_same_but. }
  rewrite (for_each_stores c (λ w, same_but c df1 (objects w)) _ HP (iterrows df1) vs).
  - simpl. rewrite iterrows_keys. simpl.
    change (index df) with (index df1) at 1. rewrite store_all_rows; [|done..|].
    + simpl. by rewrite insert_insert_eq.
    + eexists. simpl. rewrite lookup_insert_eq. split; [done|]. by rewrite length_replicate.
  - apply Forall2_same_length_lookup_2.
    + unfold iterrows. rewrite length_imap. simpl. by rewrite Hlen.
    + intros i [k r] v Hi Hv w Hw. rewrite iterrows_lookup in Hi. simpl in Hi.
      destruct (index df !! i) as [k'|] eqn:Hk; simplify_eq/=. by apply Hbody.
  - apply same_but_refl.
Qed.

Lemma getitem_row_at (df : DataFrame) (i : nat) (c : string) (col : list cell) (x : cell)
    (w : world) :
  columns df !! c = Some col → col !! i = Some x →
  getitem (row_at df i) c w = (w, Returned x).
Proof.
  intros Hc Hx. unfold getitem. rewrite row_at_lookup, Hc. simpl. by rewrite Hx.
Qed.

Lemma getitem_row_at_missing (df : DataFrame) (i : nat) (c : string) (w : world) :
  columns df !! c = None →
  getitem (row_at df i) c w = (w, Raised (KeyError (KStr c))).
Proof. intros Hc. unfold getitem. by rewrite row_at_lookup, Hc. Qed.

Lemma numeric_column_lookup (df : DataFrame) (c : string) (xs : list V) :
  numeric_column df c = Some xs → columns df !! c = Some (CNum <$> xs).
Proof.
  unfold numeric_column. destruct (columns df !! c) as [col|]; [|done]. simpl.
  intros Hm%mapM_Some. f_equal. induction Hm as [|x y col xs Hxy _ IH]; [done|].
  destruct x; simplify_eq/=. by f_equal.
Qed.

Lemma geometry_column_lookup (df : DataFrame) (gs : list (geometry V point)) :
  geometry_column df = Some gs → columns df !! "geometry" = Some (CGeom <$> gs).
Proof.
  unfold geometry_column. destruct (columns df !! "geometry") as [col|]; [|done]. simpl.
  intros Hm%mapM_Some. f_equal. induction Hm as [|x y col xs Hxy _ IH]; [done|].
  destruct x; simplify_eq/=. by f_equal.
Qed.

Lemma try_returned {A} (m h : py A) w w' a :
  m w = (w', Returned a) → try_except_KeyError m h w = (w', Returned a).
Proof. unfold try_except_KeyError. by intros ->. Qed.

Lemma try_KeyError {A} (m h : py A) w w' k :
  m w = (w', Raised (KeyError k)) → try_except_KeyError m h w = h w'.
Proof. unfold try_except_KeyError. by intros ->. Qed.

Lemma to_column_CNum (c : string) (xs : list V) :
  to_column c <$> (CNum <$> xs) = (CNum <$> xs : list cell).
Proof. rewrite <- list_fmap_compose. by apply list_fmap_ext. Qed.

Lemma setitem_lookup_ne (c c' : string) col (df : DataFrame) :
  c' ≠ c → columns (setitem c col df) !! c' = columns df !! c'.
Proof. intros Hne. simpl. by rewrite lookup_insert_ne. Qed.

(** ** Floor area *)

Lemma area_source_getitem (df : DataFrame) c a b areas i x col (w : world) :
  area_source df a b = Some areas → area_source_column a b ≠ c →
  areas !! i = Some x →
  (if b then getitem (row_at (setitem c col df) i) a
   else bind (getitem (row_at (setitem c col df) i) "geometry") area_of) w
  = (w, Returned (CNum x)).
Proof.
  intros Hsrc Hne Hx. destruct b; simpl in *.
  - apply numeric_column_lookup in Hsrc.
    eapply getitem_row_at; [by rewrite setitem_lookup_ne|].
    by rewrite list_lookup_fmap, Hx.
  - destruct (geometry_column df) as [gs|] eqn:Hgs; simplify_eq/=.
    apply geometry_column_lookup in Hgs.
    rewrite list_lookup_fmap in Hx.
    destruct (gs !! i) as [g|] eqn:Hg; simplify_eq/=.
    erewrite bind_returned;
      [|eapply getitem_row_at; [by rewrite setitem_lookup_ne|by rewrite list_lookup_fmap, Hg]].
    done.
Qed.

Lemma floor_area_run (c a h : string) (b : bool) (w : world) (areas heights : list V) :
  NoDup (index (objects w)) →
  area_source_column a b ≠ c → h ≠ c →
  area_source (objects w) a b = Some areas →
  numeric_column (objects w) h = Some heights →
  length areas = length (index (objects w)) →
  length heights = length (index (objects w)) →
  floor_area c a h b w =
    (World (Frame (index (objects w))
              (<[c := CNum <$> zip_with (λ x y, mul x (floordiv y (of_Z 3))) areas heights]>
                 (columns (objects w))))
           (stdout w ++ ["Calculating floor areas..."; "Floor areas calculated."]),
     Returned RObjects).
Proof.
  intros Hnd Hac Hhc Ha Hh Hla Hlh. unfold floor_area.
  erewrite bind_returned; [|apply define_new_column_run].
  erewrite bind_returned; [|done]. simpl.
  set (vs := CNum <$> zip_with (λ x y, mul x (floordiv y (of_Z 3))) areas heights).
  assert (Hvs : length vs = length (index (objects w))).
  { unfold vs. rewrite length_fmap, length_zip_with. lia. }
  assert (Hval : ∀ i v, vs !! i = Some v → ∃ x y,
            areas !! i = Some x ∧ heights !! i = Some y ∧
            v = CNum (mul x (floordiv y (of_Z 3)))).
  { intros i v. unfold vs. rewrite list_lookup_fmap, lookup_zip_with.
    destruct (areas !! i) as [x|]; simpl; [|done].
    destruct (heights !! i) as [y|]; simpl; [|done].
    intros [= <-]. eauto. }
  pose proof (numeric_column_lookup _ _ _ Hh) as Hh'.
  destruct b.
  - erewrite bind_returned.
    2:{ apply try_returned. erewrite bind_returned; [done|].
        apply (for_rows_stores c _ vs); [done..|].
        intros i k v w' Hk Hv Hw'. destruct (Hval i v Hv) as (x & y & Hx & Hy & ->).
        erewrite bind_returned;
          [|by apply (area_source_getitem _ c a true areas i x)].
        erewrite bind_returned;
          [|eapply getitem_row_at; [by rewrite setitem_lookup_ne|by rewrite list_lookup_fmap, Hy]].
        done. }
    unfold vs. rewrite to_column_CNum. simpl. by rewrite <- ?app_assoc.
  - erewrite bind_returned.
    2:{ erewrite bind_returned; [done|].
        apply (for_rows_stores c _ vs); [done..|].
        intros i k v w' Hk Hv Hw'. destruct (Hval i v Hv) as (x & y & Hx & Hy & ->).
        pose proof (area_source_getitem _ c a false areas i x
                      (replicate (length (index (objects w))) (missing c)) w' Ha Hac Hx) as Hg.
        simpl in Hg. unfold bind in Hg |- *.
        destruct (getitem _ "geometry" w') as [w1 [g|e]]; [|done].
        destruct (area_of g w1) as [w2 [a2|e]] eqn:Hao; simplify_eq/=.
        erewrite getitem_row_at; [|by rewrite setitem_lookup_ne|by rewrite list_lookup_fmap, Hy].
        done. }
    unfold vs. rewrite to_column_CNum. simpl. by rewrite <- ?app_assoc.
Qed.

(** ** Volume *)

Lemma volume_run (c a h : string) (b : bool) (w : world) (areas heights : list V) :
  NoDup (index (objects w)) →
  area_source_column a b ≠ c → h ≠ c →
  area_source (objects w) a b = Some areas →
  numeric_column (objects w) h = Some heights →
  length areas = length (index (objects w)) →
  length heights = length (index (objects w)) →
  volume c a h b w =
    (World (Frame (index (objects w))
              (<[c := CNum <$> zip_with mul areas heights]> (columns (objects w))))
           (stdout w ++ ["Calculating volumes..."; "Volumes calculated."]),
     Returned (if b then RNone else RObjects)).
Proof.
  intros Hnd Hac Hhc Ha Hh Hla Hlh. unfold volume.
  erewrite bind_returned; [|apply define_new_column_run].
  erewrite bind_returned; [|done]. simpl.
  set (vs := CNum <$> zip_with mul areas heights).
  assert (Hvs : length vs = length (index (objects w))).
  { unfold vs. rewrite length_fmap, length_zip_with. lia. }
  assert (Hval : ∀ i v, vs !! i = Some v → ∃ x y,
            areas !! i = Some x ∧ heights !! i = Some y ∧ v = CNum (mul x y)).
  { intros i v. unfold vs. rewrite list_lookup_fmap, lookup_zip_with.
    destruct (areas !! i) as [x|]; simpl; [|done].
    destruct (heights !! i) as [y|]; simpl; [|done].
    intros [= <-]. eauto. }
  pose proof (numeric_column_lookup _ _ _ Hh) as Hh'.
  destruct b.
  - erewrite bind_returned.
    2:{ apply try_returned. erewrite bind_returned; [done|].
        apply (for_rows_stores c _ vs); [done..|].
        intros i k v w' Hk Hv Hw'. destruct (Hval i v Hv) as (x & y & Hx & Hy & ->).
        erewrite bind_returned;
          [|by apply (area_source_getitem _ c a true areas i x)].
        erewrite bind_returned;
          [|eapply getitem_row_at; [by rewrite setitem_lookup_ne|by rewrite list_lookup_fmap, Hy]].
        done. }
    unfold vs. rewrite to_column_CNum. simpl. by rewrite <- ?app_assoc.
  - erewrite bind_returned.
    2:{ apply (for_rows_stores c _ vs); [done..|].
        intros i k v w' Hk Hv Hw'. destruct (Hval i v Hv) as (x & y & Hx & Hy & ->).
        pose proof (area_source_getitem _ c a false areas i x
                      (replicate (length (index (objects w))) (missing c)) w' Ha Hac Hx) as Hg.
        simpl in Hg. unfold bind in Hg |- *.
        destruct (getitem _ "geometry" w') as [w1 [g|e]]; [|done].
        destruct (area_of g w1) as [w2 [a2|e]] eqn:Hao; simplify_eq/=.
        erewrite getitem_row_at; [|by rewrite setitem_lookup_ne|by rewrite list_lookup_fmap, Hy].
        done. }
    erewrite bind_returned; [|done].
    unfold vs, ret. rewrite to_column_CNum. simpl. by rewrite <- app_assoc.
Qed.

(** ** Longest axis *)

Lemma longest_axis_length_run (make_circle : list point → option (V * V * V))
    (c : string) (w : world) (geoms : list (geometry V point)) (axes : list V) :
  NoDup (index (objects w)) →
  "geometry" ≠ c →
  geometry_column (objects w) = Some geoms →
  length geoms = length (index (objects w)) →
  mapM (axis_of make_circle) geoms = Some axes →
  longest_axis_length make_circle c w =
    (World (Frame (index (objects w)) (<[c := CNum <$> axes]> (columns (objects w))))
           (stdout w ++ ["Calculating the longest axis..."; "The longest axis calculated."]),
     Returned RObjects).
Proof.
  intros Hnd Hgc Hg Hlen Hax. unfold longest_axis_length.
  erewrite bind_returned; [|apply define_new_column_run].
  erewrite bind_returned; [|done]. simpl.
  apply geometry_column_lookup in Hg. apply mapM_Some in Hax.
  erewrite bind_returned.
  2:{ apply (for_rows_stores c _ (CNum <$> axes)); [done| |].
      { rewrite length_fmap, <- Hlen. symmetry. by eapply Forall2_length. }
      intros i k v w' Hk Hv Hw'. rewrite list_lookup_fmap in Hv.
      destruct (axes !! i) as [x|] eqn:Hx; simplify_eq/=.
      destruct (Forall2_lookup_r _ _ _ _ _ Hax Hx) as (g & Hgi & Hgx).
      erewrite bind_returned;
        [|eapply getitem_row_at; [by rewrite setitem_lookup_ne|by rewrite list_lookup_fmap, Hgi]].
      unfold axis_of in Hgx. simpl.
      destruct (hull_exterior_coords g) as [pts|]; simplify_eq/=.
      unfold bind, longest_axis. simpl.
      destruct (make_circle pts) as [[[cx cy] r]|]; simplify_eq/=. done. }
  erewrite bind_returned; [|done].
  unfold ret. rewrite to_column_CNum. simpl. by rewrite <- app_assoc.
Qed.

(** ** Effective mesh size *)



Lemma position_lt (len : nat) (n : Z) : in_iloc_range len n → position len n < len.
Proof. unfold in_iloc_range, position. intros Hn. case_decide; lia. Qed.






(** ** The area column is missing *)

Lemma for_rows_empty (body : Z → row → py unit) (df : DataFrame) (out : list string) :
  index df = [] → for_rows body (World df out) = (World df out, Returned tt).
Proof. intros Hi. rewrite for_rows_run. unfold iterrows. simpl. by rewrite Hi. Qed.

Lemma for_rows_first_raises (body : Z → row → py unit) (df : DataFrame)
    (out : list string) (k : Z) (rest : list Z) (e : exn) :
  index df = k :: rest →
  body k (row_at df 0) (World df out) = (World df out, Raised e) →
  for_rows body (World df out) = (World df out, Raised e).
Proof.
  intros Hi Hb. rewrite for_rows_run. unfold iterrows. simpl. rewrite Hi. simpl.
  erewrite bind_raised; [|exact Hb]. done.
Qed.

(** The pass of [volume], [floor_area] and [courtyard_area] under [try],
    when the first row trips over the missing area column. *)
Lemma guarded_pass_missing (body : Z → row → py unit) (df : DataFrame)
    (out : list string) (a done_ : string) :
  (∀ k (w : world), ∃ key, body k (row_at df 0) w = (w, Raised (KeyError key))) →
  try_except_KeyError (for_rows body ;;; print done_) (print (area_column_not_found a))
    (World df out)
  = (World df (out ++ [last_message df done_ (area_column_not_found a)]), Returned tt).
Proof.
  intros Hb. unfold last_message. destruct (index df) as [|k rest] eqn:Hi.
  - apply try_returned. erewrite bind_returned; [|by apply for_rows_empty]. done.
  - assert (∃ key, for_rows body (World df out) = (World df out, Raised (KeyError key)))
      as [key Hkey].
    { destruct (Hb k (World df out)) as [key Hkey]. exists key.
      by apply (for_rows_first_raises _ _ _ k rest). }
    erewrite try_KeyError; [|erewrite bind_raised; [|exact Hkey]; done]. done.
Qed.

Lemma volume_missing_area (c a h : string) (w : world) :
  columns (objects w) !! a = None → a ≠ c →
  volume c a h true w =
    (World (setitem c (replicate (length (index (objects w))) (missing c)) (objects w))
           (stdout w ++ ["Calculating volumes...";
                         last_message (objects w) "Volumes calculated."
                                      (area_column_not_found a)]),
     Returned RNone).
Proof.
  intros Ha Hac. unfold volume.
  erewrite bind_returned; [|apply define_new_column_run].
  erewrite bind_returned; [|done]. simpl.
  erewrite bind_returned.
  2:{ apply guarded_pass_missing. intros k w'. eexists.
      erewrite bind_raised; [|apply getitem_row_at_missing; by rewrite setitem_lookup_ne].
      done. }
  unfold ret, last_message. simpl. by rewrite <- app_assoc.
Qed.

Lemma floor_area_missing_area (c a h : string) (w : world) :
  columns (objects w) !! a = None → a ≠ c →
  floor_area c a h true w =
    (World (setitem c (replicate (length (index (objects w))) (missing c)) (objects w))
           (stdout w ++ ["Calculating floor areas...";
                         last_message (objects w) "Floor areas calculated."
                                      (area_column_not_found a)]),
     Returned RObjects).
Proof.
  intros Ha Hac. unfold floor_area.
  erewrite bind_returned; [|apply define_new_column_run].
  erewrite bind_returned; [|done]. simpl.
  erewrite bind_returned.
  2:{ apply guarded_pass_missing. intros k w'. eexists.
      erewrite bind_raised; [|apply getitem_row_at_missing; by rewrite setitem_lookup_ne].
      done. }
  unfold ret, last_message. simpl. by rewrite <- app_assoc.
Qed.

Lemma courtyard_area_missing_area (c a : string) (w : world) :
  columns (objects w) !! a = None → a ≠ c → "geometry" ≠ c →
  first_row_has_exterior (objects w) →
  courtyard_area c a true w =
    (World (setitem c (replicate (length (index (objects w))) (missing c)) (objects w))
           (stdout w ++ ["Calculating courtyard areas...";
                         last_message (objects w) "Core area indices calculated."
                                      (area_column_not_found a)]),
     Returned RObjects).
Proof.
  intros Ha Hac Hgc Hfirst. unfold courtyard_area.
  erewrite bind_returned; [|apply define_new_column_run].
  erewrite bind_returned; [|done]. simpl.
  unfold first_row_has_exterior in Hfirst.
  destruct (index (objects w)) as [|k0 rest] eqn:Hi.
  - erewrite bind_returned.
    2:{ apply try_returned. erewrite bind_returned; [|by apply for_rows_empty]. done. }
    unfold ret, last_message. simpl. rewrite Hi. simpl. by rewrite <- app_assoc.
  - erewrite bind_returned.
    2:{ apply guarded_pass_missing. intros k w'.
        destruct (columns (objects w) !! "geometry") as [col|] eqn:Hg.
        - destruct Hfirst as (g & Hg0 & [x Hx]). eexists.
          erewrite bind_returned;
            [|eapply getitem_row_at; [by rewrite setitem_lookup_ne|done]].
          unfold exterior_area_of, geom_attr. rewrite Hx. simpl.
          erewrite bind_returned; [|done].
          erewrite bind_raised; [|apply getitem_row_at_missing; by rewrite setitem_lookup_ne].
          done.
        - eexists.
          erewrite bind_raised; [|apply getitem_row_at_missing; by rewrite setitem_lookup_ne].
          done. }
    unfold ret, last_message. simpl. rewrite Hi. by rewrite <- app_assoc.
Qed.

(** ** Only the new column is touched *)

Lemma touches_only_pure {A} c (m : py A) :
  (∀ w, (m w).1 = w) → touches_only c m.
Proof. intros Hm w Hw. rewrite Hm. split; [apply same_but_refl|done]. Qed.

Lemma touches_only_ret {A} c (a : A) : touches_only c (ret a : py A).
Proof. by apply touches_only_pure. Qed.

Lemma touches_only_raise {A} c e : touches_only c (@raise V point A e).
Proof. by apply touches_only_pure. Qed.

Lemma touches_only_lift {A} c e (o : option A) : touches_only c (lift e o : py A).
Proof. destruct o; [apply touches_only_ret|apply touches_only_raise]. Qed.

Lemma touches_only_get_objects c : touches_only c (get_objects : py DataFrame).
Proof. by apply touches_only_pure. Qed.

Lemma touches_only_print c s : touches_only c (print s : py unit).
Proof. intros w Hw. split; [apply same_but_refl|done]. Qed.

Lemma touches_only_bind {A B} c (m : py A) (k : A → py B) :
  touches_only c m → (∀ a, touches_only c (k a)) → touches_only c (bind m k).
Proof.
  intros Hm Hk w Hw. destruct (Hm w Hw) as [Hs Hf]. unfold bind.
  destruct (m w) as [w' [a|e]]; simpl in *; [|done].
  destruct (Hk a w' Hf) as [Hs' Hf']. split; [|done]. by eapply same_but_trans.
Qed.

Lemma touches_only_try {A} c (m h : py A) :
  touches_only c m → touches_only c h → touches_only c (try_except_KeyError m h).
Proof.
  intros Hm Hh w Hw. destruct (Hm w Hw) as [Hs Hf]. unfold try_except_KeyError.
  destruct (m w) as [w' [a|e]]; simpl in *; [done|].
  destruct (is_KeyError e); [|done].
  destruct (Hh w' Hf) as [Hs' Hf']. split; [|done]. by eapply same_but_trans.
Qed.

Lemma touches_only_for_each {A} c (xs : list A) (body : A → py unit) :
  (∀ x, touches_only c (body x)) → touches_only c (for_each xs body).
Proof.
  intros Hb. induction xs as [|x xs IH]; simpl; [apply touches_only_ret|].
  apply touches_only_bind; [apply Hb|done].
Qed.

Lemma touches_only_for_fold {A S} c (xs : list A) (s : S) (body : S → A → py S) :
  (∀ s x, touches_only c (body s x)) → touches_only c (for_fold xs s body).
Proof.
  intros Hb. revert s. induction xs as [|x xs IH]; intros s; simpl; [apply touches_only_ret|].
  apply touches_only_bind; [apply Hb|done].
Qed.

Lemma touches_only_store k c (v : cell) : touches_only c (store k c v).
Proof.
  intros w Hw. unfold store. destruct (takes c v).
  - unfold bind, get_objects, set_objects; simpl.
    split; [apply loc_set_same_but|by apply loc_set_column_full].
  - split; [apply same_but_refl|done].
Qed.

Lemma touches_only_for_rows c (body : Z → row → py unit) :
  (∀ k r, touches_only c (body k r)) → touches_only c (for_rows body).
Proof.
  intros Hb. apply touches_only_bind; [apply touches_only_get_objects|].
  intros df. apply touches_only_for_each. intros [k r]. apply Hb.
Qed.

Lemma touches_only_getitem c (r : row) a : touches_only c (getitem r a).
Proof. apply touches_only_lift. Qed.

Lemma touches_only_binop c f (a b : cell) : touches_only c (binop f a b).
Proof.
  destruct a, b; simpl; first [apply touches_only_ret|apply touches_only_raise].
Qed.

Lemma touches_only_geom_attr {A} c attr (f : geometry V point → option A) a :
  touches_only c (geom_attr attr f a).
Proof. destruct a; simpl; first [apply touches_only_lift|apply touches_only_raise]. Qed.

Lemma touches_only_hull_coords_of c (a : cell) : touches_only c (hull_coords_of a).
Proof. destruct a; simpl; first [apply touches_only_lift|apply touches_only_raise]. Qed.

Lemma touches_only_longest_axis c (make_circle : list point → option (V * V * V)) pts :
  touches_only c (longest_axis make_circle pts).
Proof.
  unfold longest_axis. destruct (make_circle pts) as [[[? ?] ?]|];
    [apply touches_only_ret|apply touches_only_raise].
Qed.

(** Once the preamble has run, the rest only has to keep to the column. *)
Lemma define_then_touch {A} c (m : py A) :
  touches_only c m →
  ∀ w, let w' := (bind (define_new_column c) (λ _, m) w).1 in
       same_but c (objects w) (objects w') ∧ column_full c (objects w').
Proof.
  intros Hm w. unfold bind. rewrite define_new_column_run.
  set (w1 := World _ _).
  assert (Hs : same_but c (objects w) (objects w1)).
  { split; [done|]. intros c' Hc'. simpl. by rewrite lookup_insert_ne. }
  assert (Hf : column_full c (objects w1)).
  { eexists. simpl. rewrite lookup_insert_eq. split; [done|]. by rewrite length_replicate. }
  destruct (Hm w1 Hf) as [Hs' Hf']. split; [|done]. by eapply same_but_trans.
Qed.

End Run.

Ltac touches :=
  repeat first
    [ apply touches_only_ret | apply touches_only_raise | apply touches_only_print
    | apply touches_only_store | apply touches_only_getitem | apply touches_only_binop
    | apply touches_only_geom_attr | apply touches_only_hull_coords_of
    | apply touches_only_longest_axis
    | apply touches_only_lift | apply touches_only_get_objects
    | apply touches_only_for_rows; intros ? ?
    | apply touches_only_for_fold; intros ? ?
    | apply touches_only_try
    | apply touches_only_bind; [|intros ?]
    | match goal with |- touches_only _ (if ?b then _ else _) => destruct b end ].

Section Calls.
Context {V : Type} `{Number V} {point : Type}.
Variable make_circle : list point → option (V * V * V).

Lemma run_call_frame (call : metric_call) (w : world V point) :
  let w' := (run_call make_circle call w).1 in
  same_but (column_of call) (objects w) (objects w') ∧
  column_full (column_of call) (objects w').
Proof.
  destruct call; simpl; apply define_then_touch; touches.
Qed.

End Calls.

(** ** Binary64: dividing by one *)

Module Binary64Facts.
Import Binary64.
Local Open Scope Z_scope.




End Binary64Facts.

(** ** The minimal enclosing circle is minimal *)

Module MECFacts.
Import MEC.
Local Open Scope R_scope.


Ltac sqr_pos e := let H := fresh "Hsq" in pose proof (Rle_0_sqr e) as H; unfold Rsqr in H.

Lemma sq_dist_nonneg a b : 0 <= sq_dist a b.
Proof. unfold sq_dist. sqr_pos (a.1 - b.1). sqr_pos (a.2 - b.2). lra. Qed.

Lemma dist_sqrt a b : dist a b = sqrt (sq_dist a b).
Proof. reflexivity. Qed.

Lemma dist_nonneg a b : 0 <= dist a b.
Proof. apply sqrt_pos. Qed.

Lemma dist_le_iff a b r : 0 <= r → dist a b <= r ↔ sq_dist a b <= r * r.
Proof.
  intros Hr. rewrite dist_sqrt. pose proof (sq_dist_nonneg a b) as Hd.
  split; intros Hle.
  - rewrite <- (sqrt_sqrt (sq_dist a b)) by done.
    pose proof (sqrt_pos (sq_dist a b)). nra.
  - rewrite <- (sqrt_square r) by done. by apply sqrt_le_1_alt.
Qed.

Lemma dist_eq_iff a b r : 0 <= r → dist a b = r ↔ sq_dist a b = r * r.
Proof.
  intros Hr. rewrite dist_sqrt. pose proof (sq_dist_nonneg a b) as Hd.
  split; intros Heq.
  - rewrite <- Heq. by rewrite sqrt_sqrt.
  - rewrite Heq. by apply sqrt_square.
Qed.

Lemma dist_self a : dist a a = 0.
Proof. apply dist_eq_iff; [lra|]. unfold sq_dist. ring. Qed.

Lemma is_in_circle_true c p : is_in_circle c p = true ↔ dist (center c) p <= radius c.
Proof. unfold is_in_circle. apply bool_decide_eq_true. Qed.

Lemma is_in_circle_false c p : is_in_circle c p = false ↔ radius c < dist (center c) p.
Proof. unfold is_in_circle. rewrite bool_decide_eq_false. lra. Qed.


(** ** Two discs and a point between them

    [c0] leaves [p] outside, [c1] has it inside and is not smaller.  On
    the segment between the two centres there is a disc that has [p] on
    its boundary, bounds whatever both discs bound, keeps on its boundary
    whatever both have on theirs, and is not larger than [c1]. *)
Lemma disc_between (c0 c1 : circle) (p : point) :
  0 <= radius c0 → radius c0 <= radius c1 →
  radius c0 < dist (center c0) p → dist (center c1) p <= radius c1 →
  ∃ c : circle,
    0 <= radius c ∧ radius c <= radius c1 ∧
    dist (center c) p = radius c ∧
    (∀ z, dist (center c0) z <= radius c0 → dist (center c1) z <= radius c1 →
          dist (center c) z <= radius c) ∧
    (∀ z, dist (center c0) z = radius c0 → dist (center c1) z = radius c1 →
          dist (center c) z = radius c).
Proof.
  destruct c0 as [[x0 y0] r0], c1 as [[x1 y1] r1], p as [px py].
  unfold center, radius; simpl. intros Hr0 Hr01 Hout Hin.
  assert (Hr1 : 0 <= r1) by lra.
  apply dist_le_iff in Hin; [|done].
  assert (Hout' : r0 * r0 < sq_dist (x0, y0) (px, py)).
  { destruct (Rle_or_lt (sq_dist (x0, y0) (px, py)) (r0 * r0)) as [Hle|]; [|done].
    apply dist_le_iff in Hle; [lra|done]. }
  set (f0 := sq_dist (x0, y0) (px, py) - r0 * r0) in *.
  set (f1 := sq_dist (x1, y1) (px, py) - r1 * r1) in *.
  assert (Hf0 : 0 < f0) by (unfold f0; lra).
  assert (Hf1 : f1 <= 0) by (unfold f1; lra).
  set (l := f0 / (f0 - f1)).
  assert (Hl : l * (f0 - f1) = f0) by (unfold l; field; lra).
  assert (Hl0 : 0 < l).
  { unfold l. apply Rdiv_lt_0_compat; lra. }
  assert (Hl1 : l <= 1).
  { unfold l. apply (Rmult_le_reg_r (f0 - f1)); [lra|].
    replace (f0 / (f0 - f1) * (f0 - f1)) with f0 by (field; lra). lra. }
  set (mx := (1 - l) * x0 + l * x1). set (my := (1 - l) * y0 + l * y1).
  set (m := (mx, my) : point).
  assert (Hpencil : ∀ z : point,
    sq_dist m z = sq_dist m (px, py)
      + (1 - l) * (sq_dist (x0, y0) z - r0 * r0)
      + l * (sq_dist (x1, y1) z - r1 * r1)).
  { intros [zx zy].
    transitivity (sq_dist m (px, py)
      + (1 - l) * (sq_dist (x0, y0) (zx, zy) - r0 * r0)
      + l * (sq_dist (x1, y1) (zx, zy) - r1 * r1) - (f0 - l * (f0 - f1))); [|lra].
    unfold f0, f1, m, mx, my, sq_dist; simpl. ring. }
  assert (Hrad : sq_dist m (px, py) <= r1 * r1).
  { assert (Heq : sq_dist m (px, py) =
        (1 - l) * (r0 * r0) + l * (r1 * r1)
        - l * (1 - l) * sq_dist (x0, y0) (x1, y1)).
    { transitivity ((1 - l) * (r0 * r0) + l * (r1 * r1)
        - l * (1 - l) * sq_dist (x0, y0) (x1, y1) + (f0 - l * (f0 - f1))); [|lra].
      unfold f0, f1, m, mx, my, sq_dist; simpl. ring. }
    rewrite Heq. pose proof (sq_dist_nonneg (x0, y0) (x1, y1)).
    assert (r0 * r0 <= r1 * r1) by nra.
    assert (0 <= l * (1 - l) * sq_dist (x0, y0) (x1, y1)).
    { apply Rmult_le_pos; [apply Rmult_le_pos; lra|done]. }
    nra. }
  exists (m, dist m (px, py)). unfold center, radius; simpl. fold m.
  pose proof (dist_nonneg m (px, py)) as Hpos.
  assert (Hsq : sq_dist m (px, py) = dist m (px, py) * dist m (px, py)).
  { by apply dist_eq_iff. }
  split_and!.
  - done.
  - by apply dist_le_iff.
  - done.
  - intros z Hz0 Hz1. apply dist_le_iff in Hz0, Hz1; [|done..].
    apply dist_le_iff; [done|]. rewrite <- Hsq, (Hpencil z).
    assert ((1 - l) * (sq_dist (x0, y0) z - r0 * r0) <= 0) by nra.
    assert (l * (sq_dist (x1, y1) z - r1 * r1) <= 0) by nra.
    lra.
  - intros z Hz0 Hz1. apply dist_eq_iff in Hz0, Hz1; [|done..].
    apply dist_eq_iff; [done|]. rewrite <- Hsq, (Hpencil z), Hz0, Hz1. ring.
Qed.


(** ** Candidates and smallest discs *)

Lemma candidate_weaken c ps ps' bs bs' :
  (∀ p, p ∈ ps' → p ∈ ps) → (∀ p, p ∈ bs' → p ∈ bs) →
  candidate c ps bs → candidate c ps' bs'.
Proof.
  intros Hps Hbs (Hr & He & Hb). split_and!; [done|..].
  - intros p Hp. apply He, Hps, Hp.
  - intros p Hp. apply Hb, Hbs, Hp.
Qed.

Lemma smallest_boundary_equiv c ps bs bs' :
  (∀ p, p ∈ bs ↔ p ∈ bs') → smallest c ps bs → smallest c ps bs'.
Proof.
  intros Heq [Hc Hmin]. split.
  - eapply candidate_weaken; [| |exact Hc]; [done|]. intros p. apply Heq.
  - intros c' Hc'. apply Hmin. eapply candidate_weaken; [| |exact Hc']; [done|].
    intros p. apply Heq.
Qed.

(** A point that the smallest disc already bounds changes nothing. *)
Lemma smallest_extend c ps bs p :
  smallest c ps bs → dist (center c) p <= radius c → smallest c (ps ++ [p]) bs.
Proof.
  intros [(Hr & He & Hb) Hmin] Hin. split.
  - split_and!; [done| |done]. intros z [Hz| ->%list_elem_of_singleton]%elem_of_app; auto.
  - intros c' Hc'. apply Hmin. eapply candidate_weaken; [| |exact Hc']; [|done].
    intros z Hz. apply elem_of_app. by left.
Qed.

(** A point outside the smallest disc: any candidate for the larger set
    gives one, not larger, that has the point on its boundary. *)
Lemma candidate_through c0 ps bs p c1 :
  smallest c0 ps bs → radius c0 < dist (center c0) p →
  candidate c1 (ps ++ [p]) bs →
  ∃ c, candidate c (ps ++ [p]) (p :: bs) ∧ radius c <= radius c1.
Proof.
  intros [(Hr0 & He0 & Hb0) Hmin] Hout Hc1.
  assert (Hle : radius c0 <= radius c1).
  { apply Hmin. eapply candidate_weaken; [| |exact Hc1]; [|done].
    intros z Hz. apply elem_of_app. by left. }
  destruct Hc1 as (Hr1 & He1 & Hb1).
  destruct (disc_between c0 c1 p) as (c & Hr & Hle1 & Hp & Hin & Hon); [done..| |].
  { apply He1, elem_of_app. right. by apply list_elem_of_singleton. }
  exists c. split; [|done]. split_and!; [done|..].
  - intros z [Hz| ->%list_elem_of_singleton]%elem_of_app.
    + apply Hin; [by apply He0|]. apply He1, elem_of_app. by left.
    + lra.
  - intros z [->|Hz]%elem_of_cons; [done|]. apply Hon; [by apply Hb0|by apply Hb1].
Qed.

(** So the smallest disc with the point on the boundary is the smallest
    disc of the larger set. *)
Lemma smallest_transfer c0 ps bs p c :
  smallest c0 ps bs → radius c0 < dist (center c0) p →
  smallest c ps (p :: bs) → smallest c (ps ++ [p]) bs.
Proof.
  intros H0 Hout [(Hr & He & Hb) Hmin]. split.
  - split_and!; [done|..].
    + intros z [Hz| ->%list_elem_of_singleton]%elem_of_app; [by apply He|].
      rewrite Hb; [lra|]. apply elem_of_cons. by left.
    + intros z Hz. apply Hb, elem_of_cons. by right.
  - intros c1 Hc1.
    destruct (candidate_through c0 ps bs p c1) as (c2 & Hc2 & Hle); [done..|].
    etrans; [|exact Hle]. apply Hmin.
    eapply candidate_weaken; [| |exact Hc2]; [|done].
    intros z Hz. apply elem_of_app. by left.
Qed.

(** Every finite set of points fits in some disc. *)
Lemma bounding_disc (ps : list point) : ∃ c, candidate c ps [].
Proof.
  induction ps as [|p ps (c & Hr & He & _)].
  - exists ((0, 0), 0). split_and!; [simpl; lra|..]; intros p Hp; by apply elem_of_nil in Hp.
  - exists (center c, Rmax (radius c) (dist (center c) p)).
    unfold candidate, encloses, radius, center; simpl. split_and!.
    + etrans; [exact Hr|]. apply Rmax_l.
    + intros z [->|Hz]%elem_of_cons; [apply Rmax_r|].
      etrans; [by apply He|]. apply Rmax_l.
    + intros z Hz. by apply elem_of_nil in Hz.
Qed.


(** ** The trivial circles *)

Lemma make_diameter_boundary p q :
  dist (center (make_diameter p q)) p = radius (make_diameter p q) ∧
  dist (center (make_diameter p q)) q = radius (make_diameter p q).
Proof.
  destruct p as [px py], q as [qx qy]. unfold make_diameter, center, radius; simpl.
  split; [done|]. apply dist_eq_iff; [apply dist_nonneg|].
  rewrite <- (proj1 (dist_eq_iff _ _ _ (dist_nonneg _ _)) eq_refl).
  unfold sq_dist; simpl. field.
Qed.

(** A disc that bounds [p] and [q] is at least as large as the one they
    are a diameter of. *)
Lemma make_diameter_least p q c :
  0 <= radius c → dist (center c) p <= radius c → dist (center c) q <= radius c →
  radius (make_diameter p q) <= radius c.
Proof.
  destruct p as [px py], q as [qx qy], c as [[x y] r].
  unfold make_diameter, center, radius; simpl. intros Hr Hp Hq.
  apply dist_le_iff in Hp, Hq; [|done..]. apply dist_le_iff; [done|].
  unfold sq_dist in *; simpl in *.
  sqr_pos (px + qx - 2 * x). sqr_pos (py + qy - 2 * y). nra.
Qed.

Lemma make_diameter_smallest p q : smallest (make_diameter p q) [] [p; q].
Proof.
  destruct (make_diameter_boundary p q) as [Hp Hq]. split.
  - split_and!.
    + rewrite <- Hp. apply dist_nonneg.
    + intros z Hz. by apply elem_of_nil in Hz.
    + intros z [->|[->|Hz%elem_of_nil]%elem_of_cons]%elem_of_cons; done.
  - intros c (Hr & _ & Hb). apply make_diameter_least; [done|..].
    + rewrite Hb; [lra|]. apply elem_of_cons. by left.
    + rewrite Hb; [lra|]. apply elem_of_cons. right. apply elem_of_cons. by left.
Qed.

(** Three distinct points on a circle are not collinear, and the circle
    is the one [make_circumcircle] computes. *)
Lemma make_circumcircle_unique a b c k :
  0 <= radius k →
  dist (center k) a = radius k → dist (center k) b = radius k →
  dist (center k) c = radius k →
  a ≠ b → c ≠ a → c ≠ b →
  make_circumcircle a b c = Some k.
Proof.
  destruct a as [ax ay], b as [bx by_], c as [cx cy], k as [[x y] r].
  unfold center, radius; simpl. intros Hr Ha Hb Hc Hab Hca Hcb.
  apply dist_eq_iff in Ha, Hb, Hc; [|done..]. unfold sq_dist in *; simpl in *.
  set (ux := bx - ax). set (uy := by_ - ay).
  set (vx := cx - ax). set (vy := cy - ay).
  set (wx := ax - x). set (wy := ay - y).
  assert (Hu : 2 * (wx * ux + wy * uy) + (ux * ux + uy * uy) = 0).
  { unfold ux, uy, wx, wy. lra. }
  assert (Hv : 2 * (wx * vx + wy * vy) + (vx * vx + vy * vy) = 0).
  { unfold vx, vy, wx, wy. lra. }
  set (d := (ax * (by_ - cy) + bx * (cy - ay) + cx * (ay - by_)) * 2).
  assert (Hd : d = 2 * (ux * vy - uy * vx)).
  { unfold d, ux, uy, vx, vy. ring. }
  assert (Hu0 : 0 < ux * ux + uy * uy).
  { destruct (Rle_or_lt (ux * ux + uy * uy) 0) as [Hle|]; [|done].
    exfalso. apply Hab. sqr_pos ux. sqr_pos uy.
    f_equal; unfold ux, uy in *; nra. }
  assert (Hd0 : d ≠ 0).
  { intros Hd0. assert (Hcr : ux * vy - uy * vx = 0) by lra.
    set (s := ux * vx + uy * vy).
    set (n := ux * ux + uy * uy) in *.
    assert (H1 : n * vx = s * ux).
    { transitivity (s * ux - uy * (ux * vy - uy * vx)); [unfold n, s; ring|].
      rewrite Hcr. ring. }
    assert (H2 : n * vy = s * uy).
    { transitivity (s * uy + ux * (ux * vy - uy * vx)); [unfold n, s; ring|].
      rewrite Hcr. ring. }
    assert (H3 : n * (vx * vx + vy * vy) = n * s).
    { transitivity (- (2 * (wx * (n * vx) + wy * (n * vy)))).
      - transitivity (n * (2 * (wx * vx + wy * vy) + (vx * vx + vy * vy))
                      - 2 * (wx * (n * vx) + wy * (n * vy))); [ring|].
        rewrite Hv. ring.
      - rewrite H1, H2.
        transitivity (- s * (2 * (wx * ux + wy * uy))); [ring|].
        replace (2 * (wx * ux + wy * uy)) with (- n) by lra. ring. }
    assert (H4 : vx * vx + vy * vy = s).
    { apply (Rmult_eq_reg_l n); [done|lra]. }
    assert (H5 : n * (vx * vx + vy * vy) = s * s).
    { transitivity (s * s + (ux * vy - uy * vx) * (ux * vy - uy * vx));
        [unfold n, s; ring|]. rewrite Hcr. ring. }
    assert (H6 : s * (n - s) = 0) by (rewrite H4 in H5; lra).
    destruct (Rmult_integral _ _ H6) as [Hs|Hs].
    - apply Hca. sqr_pos vx. sqr_pos vy. f_equal; unfold vx, vy in *; nra.
    - apply Hcb.
      assert (H7 : (ux - vx) * (ux - vx) + (uy - vy) * (uy - vy) = 0).
      { transitivity (n - 2 * s + (vx * vx + vy * vy)); [unfold n, s; ring|]. lra. }
      sqr_pos (ux - vx). sqr_pos (uy - vy).
      f_equal; unfold ux, uy, vx, vy in *; nra. }
  unfold make_circumcircle; simpl. fold d.
  destruct (decide (d = 0)) as [|_]; [done|].
  set (na := ax * ax + ay * ay). set (nb := bx * bx + by_ * by_).
  set (nc := cx * cx + cy * cy).
  assert (Hx : (na * (by_ - cy) + nb * (cy - ay) + nc * (ay - by_)) / d = x).
  { apply (Rmult_eq_reg_r d); [|done].
    replace ((na * (by_ - cy) + nb * (cy - ay) + nc * (ay - by_)) / d * d)
      with (na * (by_ - cy) + nb * (cy - ay) + nc * (ay - by_)) by (field; done).
    apply Rminus_diag_uniq.
    transitivity (((x - bx) * (x - bx) + (y - by_) * (y - by_)
                   - ((x - ax) * (x - ax) + (y - ay) * (y - ay))) * (cy - ay)
                - ((x - cx) * (x - cx) + (y - cy) * (y - cy)
                   - ((x - ax) * (x - ax) + (y - ay) * (y - ay))) * (by_ - ay)).
    - unfold d, na, nb, nc. ring.
    - rewrite Ha, Hb, Hc. ring. }
  assert (Hy : (na * (cx - bx) + nb * (ax - cx) + nc * (bx - ax)) / d = y).
  { apply (Rmult_eq_reg_r d); [|done].
    replace ((na * (cx - bx) + nb * (ax - cx) + nc * (bx - ax)) / d * d)
      with (na * (cx - bx) + nb * (ax - cx) + nc * (bx - ax)) by (field; done).
    apply Rminus_diag_uniq.
    transitivity (((x - cx) * (x - cx) + (y - cy) * (y - cy)
                   - ((x - ax) * (x - ax) + (y - ay) * (y - ay))) * (bx - ax)
                - ((x - bx) * (x - bx) + (y - by_) * (y - by_)
                   - ((x - ax) * (x - ax) + (y - ay) * (y - ay))) * (cx - ax)).
    - unfold d, na, nb, nc. ring.
    - rewrite Ha, Hb, Hc. ring. }
  rewrite Hx, Hy. do 2 f_equal.
  apply dist_eq_iff; [done|]. unfold sq_dist; simpl. done.
Qed.


(** ** The three levels of the cascade *)

Lemma outside_neq c p q :
  dist (center c) p <= radius c → radius c < dist (center c) q → q ≠ p.
Proof. intros Hp Hq ->. lra. Qed.

Lemma two_boundary_points_smallest p q (todo : list point) :
  p ≠ q → ∀ seen c,
  smallest c seen [p; q] →
  (∃ c1, candidate c1 (seen ++ todo) [p; q]) →
  ∃ c', two_boundary_points todo p q c = Some c' ∧ smallest c' (seen ++ todo) [p; q].
Proof.
  intros Hpq. induction todo as [|r todo IH]; intros seen c Hc [c1 Hc1]; simpl.
  { exists c. by rewrite app_nil_r. }
  replace (seen ++ r :: todo) with ((seen ++ [r]) ++ todo) in * by by rewrite <- app_assoc.
  destruct (is_in_circle c r) eqn:Hin.
  - apply is_in_circle_true in Hin. apply IH; [by apply smallest_extend|by exists c1].
  - apply is_in_circle_false in Hin.
    assert (Hc1' : candidate c1 (seen ++ [r]) [p; q]).
    { eapply candidate_weaken; [| |exact Hc1]; [|done].
      intros z Hz. apply elem_of_app. by left. }
    destruct (candidate_through c seen [p; q] r c1) as (c2 & Hc2 & _); [done..|].
    assert (Hon : ∀ k, candidate k (seen ++ [r]) (r :: [p; q]) →
                       make_circumcircle p q r = Some k).
    { intros k (Hr & _ & Hb). destruct Hc as [(_ & _ & Hbc) _].
      apply make_circumcircle_unique; [done|apply Hb..|done| |].
      - do 1 right. left.
      - do 2 right. left.
      - left.
      - apply (outside_neq c); [|done]. rewrite Hbc; [lra|left].
      - apply (outside_neq c); [|done]. rewrite Hbc; [lra|right; left]. }
    rewrite (Hon c2 Hc2). simpl. apply IH; [|by exists c1].
    apply (smallest_transfer c); [done..|]. split.
    + eapply candidate_weaken; [| |exact Hc2]; [|done].
      intros z Hz. apply elem_of_app. by left.
    + intros k Hk.
      destruct (candidate_through c seen [p; q] r k) as (k2 & Hk2 & Hle).
      { done. } { done. }
      { destruct Hk as (Hr & He & Hb). split_and!; [done|..].
        - intros z [Hz| ->%list_elem_of_singleton]%elem_of_app; [by apply He|].
          rewrite Hb; [lra|left].
        - intros z Hz. apply Hb. by right. }
      pose proof (Hon k2 Hk2) as Heq. rewrite (Hon c2 Hc2) in Heq.
      injection Heq as ->. lra.
Qed.

Lemma one_boundary_point_smallest p (todo : list point) :
  ∀ seen c,
  smallest c seen [p] →
  (∃ c1, candidate c1 (seen ++ todo) [p]) →
  ∃ c', one_boundary_point seen todo p c = Some c' ∧ smallest c' (seen ++ todo) [p].
Proof.
  induction todo as [|q todo IH]; intros seen c Hc [c1 Hc1]; simpl.
  { exists c. by rewrite app_nil_r. }
  replace (seen ++ q :: todo) with ((seen ++ [q]) ++ todo) in * by by rewrite <- app_assoc.
  destruct (is_in_circle c q) eqn:Hin.
  - apply is_in_circle_true in Hin. apply IH; [by apply smallest_extend|by exists c1].
  - apply is_in_circle_false in Hin.
    assert (Hc1' : candidate c1 (seen ++ [q]) [p]).
    { eapply candidate_weaken; [| |exact Hc1]; [|done].
      intros z Hz. apply elem_of_app. by left. }
    destruct (candidate_through c seen [p] q c1) as (c2 & Hc2 & _); [done..|].
    assert (Hpq : p ≠ q).
    { apply not_eq_sym, (outside_neq c); [|done].
      destruct Hc as [(_ & _ & Hb) _]. rewrite Hb; [lra|left]. }
    destruct (two_boundary_points_smallest p q seen Hpq [] (make_diameter p q))
      as (c' & Heq & Hc'); [apply make_diameter_smallest| |].
    { exists c2. simpl. eapply candidate_weaken; [| |exact Hc2].
      - intros z Hz. apply elem_of_app. by left.
      - intros z [->|[->|Hz%elem_of_nil]%elem_of_cons]%elem_of_cons;
          [right; left|left|done]. }
    rewrite Heq. simpl in *. apply IH; [|by exists c1].
    apply (smallest_transfer c); [done..|].
    eapply smallest_boundary_equiv; [|exact Hc'].
    intros z. rewrite !elem_of_cons. tauto.
Qed.

Lemma single_point_smallest p : smallest (p, 0) [] [p].
Proof.
  destruct p as [px py]. split.
  - split_and!; [simpl; lra|..].
    + intros z Hz. by apply elem_of_nil in Hz.
    + intros z ->%list_elem_of_singleton. apply dist_self.
  - intros c (Hr & _). done.
Qed.

Lemma incremental_smallest (todo : list point) :
  ∀ seen c,
  match c with
  | None => seen = []
  | Some k => smallest k seen []
  end →
  seen ++ todo ≠ [] →
  ∃ c', incremental seen todo c = Some c' ∧ smallest c' (seen ++ todo) [].
Proof.
  induction todo as [|p todo IH]; intros seen c Hc Hne; simpl.
  { rewrite app_nil_r in *. destruct c as [k|]; [by exists k|done]. }
  replace (seen ++ p :: todo) with ((seen ++ [p]) ++ todo) in * by by rewrite <- app_assoc.
  destruct c as [k|]; simpl.
  - destruct (is_in_circle k p) eqn:Hin.
    + apply is_in_circle_true in Hin. apply (IH _ (Some k)); [by apply smallest_extend|done].
    + apply is_in_circle_false in Hin.
      destruct (bounding_disc (seen ++ [p])) as [c1 Hc1].
      destruct (candidate_through k seen [] p c1) as (c2 & Hc2 & _); [done..|].
      destruct (one_boundary_point_smallest p seen [] (p, 0))
        as (c' & Heq & Hc'); [apply single_point_smallest| |].
      { exists c2. simpl. eapply candidate_weaken; [| |exact Hc2]; [|done].
        intros z Hz. apply elem_of_app. by left. }
      rewrite Heq. simpl in *. apply (IH _ (Some c')); [|done].
      by apply (smallest_transfer k).
  - subst seen. simpl in *. apply (IH [p] (Some (p, 0))); [|done].
    destruct (single_point_smallest p) as [(Hr & _ & Hb) _]. split.
    + split_and!; [done| |]; intros z Hz; [|by apply elem_of_nil in Hz].
      by apply Req_le, Hb.
    + intros c' (Hr' & _). done.
Qed.

(** The solver returns a circle for every non-empty input, and the circle
    is a smallest one that bounds the points. *)
Lemma enclosingCircle_smallest (points : list point) :
  points ≠ [] → ∃ c, enclosingCircle points = Some c ∧ smallest c points [].
Proof.
  intros Hne. destruct points as [|p [|q [|r rest]]]; [done|..].
  - exists (p, 0). split; [done|].
    destruct (single_point_smallest p) as [(Hr & _ & Hb) _]. split.
    + split_and!; [done| |]; intros z Hz; [|by apply elem_of_nil in Hz].
      by apply Req_le, Hb.
    + intros c' (Hr' & _). done.
  - exists (make_diameter p q). split; [done|].
    destruct (make_diameter_smallest p q) as [(Hr & _ & Hb) _]. split.
    + split_and!; [done| |]; intros z Hz; [|by apply elem_of_nil in Hz].
      by apply Req_le, Hb.
    + intros c' (Hr' & He & _). apply make_diameter_least; [done|apply He..].
      * left.
      * right; left.
  - apply (incremental_smallest (p :: q :: r :: rest) [] None); done.
Qed.

(** The circle around the square with side 2 has radius √2. *)
Lemma square_circle :
  ∃ x y, enclosingCircle Samples.ring2 = Some (x, y, sqrt 2).
Proof.
  destruct (enclosingCircle_smallest Samples.ring2) as ([[x y] r] & Hc & Hcand & Hmin);
    [done|].
  exists x, y. rewrite Hc. do 2 f_equal.
  assert (Hs2 : sqrt 2 * sqrt 2 = 2) by (apply sqrt_sqrt; lra).
  pose proof (sqrt_pos 2) as Hs0.
  apply Rle_antisym.
  - apply (Hmin (1, 1, sqrt 2)). split_and!; [done| |].
    + intros p Hp. apply dist_le_iff; [done|]. unfold Samples.ring2 in Hp.
      rewrite !elem_of_cons in Hp.
      destruct Hp as [->|[->|[->|[->|[->|Hp%elem_of_nil]]]]]; [..|done];
        unfold sq_dist, center; simpl; lra.
    + intros p Hp. by apply elem_of_nil in Hp.
  - destruct Hcand as (Hr & He & _).
    assert (H0 : dist (x, y) (0, 0) <= r) by (apply (He (0, 0)); left).
    assert (H2 : dist (x, y) (2, 2) <= r).
    { apply (He (2, 2)). do 2 right. left. }
    apply dist_le_iff in H0, H2; [|done..]. unfold sq_dist in *; simpl in *.
    sqr_pos (x - 1). sqr_pos (y - 1).
    assert (Hr2 : 2 <= r * r) by lra.
    rewrite <- (sqrt_square r) by done. apply sqrt_le_1_alt. lra.
Qed.

(** The order in which the points are taken does not matter for what is
    bounded. *)
Lemma smallest_permutation c ps ps' bs :
  ps ≡ₚ ps' → smallest c ps bs → smallest c ps' bs.
Proof.
  intros Hp [Hc Hmin]. split.
  - eapply candidate_weaken; [| |exact Hc]; [|done]. intros p Hp'. by rewrite Hp.
  - intros c' Hc'. apply Hmin.
    eapply candidate_weaken; [| |exact Hc']; [|done]. intros p Hp'. by rewrite <- Hp.
Qed.

(** The three circles of the spec's examples. *)
Lemma single_point_circle : enclosingCircle [(3, 4)] = Some (3, 4, 0).
Proof. reflexivity. Qed.

Lemma two_points_circle : enclosingCircle [(0, 0); (4, 0)] = Some (2, 0, 2).
Proof.
  unfold enclosingCircle, make_diameter. simpl. do 3 f_equal; [lra|lra|].
  apply dist_eq_iff; [lra|]. unfold sq_dist; simpl. lra.
Qed.

Lemma right_triangle_circle :
  enclosingCircle [(0, 0); (4, 0); (0, 3)] = Some (2, 3 / 2, 5 / 2).
Proof.
  destruct (enclosingCircle_smallest [(0, 0); (4, 0); (0, 3)])
    as ([[x y] r] & Hc & (Hr & He & _) & Hmin); [done|].
  rewrite Hc. simpl in Hr.
  assert (Hle : r <= 5 / 2).
  { apply (Hmin (2, 3 / 2, 5 / 2)). split_and!; [simpl; lra| |].
    - intros p Hp. apply dist_le_iff; [simpl; lra|].
      rewrite !elem_of_cons in Hp.
      destruct Hp as [->|[->|[->|Hp%elem_of_nil]]]; [..|done];
        unfold sq_dist, center, radius; simpl; lra.
    - intros p Hp. by apply elem_of_nil in Hp. }
  assert (H1 : dist (x, y) (4, 0) <= r) by (apply (He (4, 0)); right; left).
  assert (H2 : dist (x, y) (0, 3) <= r) by (apply (He (0, 3)); do 2 right; left).
  apply dist_le_iff in H1, H2; [|done..]. unfold sq_dist in *; simpl in *.
  sqr_pos (x - 2). sqr_pos (y - 3 / 2).
  assert (Hrr : r * r <= 25 / 4) by nra.
  assert (Hx : (x - 2) * (x - 2) = 0) by lra.
  assert (Hy : (y - 3 / 2) * (y - 3 / 2) = 0) by lra.
  assert (x = 2) by (destruct (Rmult_integral _ _ Hx); lra).
  assert (y = 3 / 2) by (destruct (Rmult_integral _ _ Hy); lra).
  assert (r = 5 / 2) by nra. by subst.
Qed.

End MECFacts.

(** ** What the functions hand back *)

Section Returns.
Context {V : Type} `{Number V} {point : Type}.
Variable make_circle : list point → option (V * V * V).






End Returns.

(** ** The square with side 2 *)

Lemma square_axis :
  mapM (axis_of exact_make_circle) [Samples.square2] = Some [Some (sqrt 2 * 2)%R].
Proof.
  destruct MECFacts.square_circle as (cx & cy & Hc).
  apply mapM_Some. repeat constructor.
  unfold axis_of, exact_make_circle, Samples.square2. cbn [hull_exterior_coords mbind option_bind].
  rewrite Hc. done.
Qed.

Lemma square_axis_run (c : string) :
  "geometry" ≠ c →
  longest_axis_length exact_make_circle c Samples.one_square =
    (World (Frame [0%Z] (<[c := [CNum (Some (sqrt 2 * 2)%R)]]>
                           (columns (objects Samples.one_square))))
           ["Calculating the longest axis..."; "The longest axis calculated."],
     Returned RObjects).
Proof.
  intros Hc.
  apply (longest_axis_length_run exact_make_circle c Samples.one_square
           [Samples.square2] [Some (sqrt 2 * 2)%R]); try done.
  - apply NoDup_singleton.
  - apply square_axis.
Qed.

(** ** The mean of equal areas *)

Lemma exact_sum_equal (a t : R) (k : nat) :
  foldl (add (V := Exact.num)) (Some t) (replicate k (Some a)) = Some (t + INR k * a)%R.
Proof.
  revert t. induction k as [|k IH]; intros t.
  - simpl. f_equal. lra.
  - rewrite S_INR. cbn [replicate foldl]. change (add (Some t) (Some a)) with (Some (t + a)%R).
    rewrite IH. f_equal. lra.
Qed.

Lemma exact_mesh_value_alone (areas : list Exact.num) (i : nat) :
  mesh_value areas i [] = default nan (areas !! i).
Proof.
  unfold mesh_value. simpl. destruct (areas !! i) as [[x|]|]; simpl; [|done..].
  change (IZR (Z.of_nat 0 + 1)) with 1%R.
  rewrite decide_False by lra. f_equal. field.
Qed.

Lemma exact_mesh_value_equal (a : R) (n i : nat) (ns : list Z) :
  i < n → Forall (in_iloc_range n) ns →
  mesh_value (replicate n (Some a : Exact.num)) i ns = Some a.
Proof.
  intros Hi Hns. unfold mesh_value. cbv zeta. rewrite length_replicate.
  rewrite (lookup_replicate_2 n (Some a : Exact.num) i Hi).
  change (default nan (Some (Some a))) with (Some a : Exact.num).
  assert (Heq : (λ m : Z, default nan (replicate n (Some a : Exact.num) !! position n m)) <$> ns
                = replicate (length ns) (Some a)).
  { induction Hns as [|m ns Hm _ IH]; [done|]. cbn [fmap list_fmap length replicate].
    rewrite lookup_replicate_2 by (by apply position_lt). cbn [default]. f_equal. exact IH. }
  rewrite Heq, exact_sum_equal.
  assert (Hk : IZR (Z.of_nat (length ns) + 1) = (INR (length ns) + 1)%R).
  { rewrite plus_IZR, <- INR_IZR_INZ. done. }
  pose proof (pos_INR (length ns)) as Hpos.
  cbn [of_Z truediv Exact.number Exact.div_by]. rewrite Hk.
  rewrite decide_False by lra. f_equal. field. lra.
Qed.


(** * More of the module *)

(** ** The passes that copy or combine columns *)

Section MoreRuns.
Context {V : Type} `{Number V} {point : Type}.

#[local] Abbreviation cell := (cell V point).
#[local] Abbreviation DataFrame := (DataFrame V point).
#[local] Abbreviation world := (world V point).
#[local] Abbreviation py := (py V point).
#[local] Abbreviation row := (gmap string cell).

Lemma area_run (c : string) (w : world) (geoms : list (geometry V point)) :
  NoDup (index (objects w)) →
  "geometry" ≠ c →
  geometry_column (objects w) = Some geoms →
  length geoms = length (index (objects w)) →
  area c w =
    (World (Frame (index (objects w))
              (<[c := CNum <$> (geom_area <$> geoms)]> (columns (objects w))))
           (stdout w ++ ["Calculating areas..."; "Areas calculated."]),
     Returned RObjects).
Proof.
  intros Hnd Hgc Hg Hlen. unfold area.
  erewrite bind_returned; [|apply define_new_column_run].
  erewrite bind_returned; [|done]. simpl.
  apply geometry_column_lookup in Hg.
  erewrite bind_returned.
  2:{ apply (for_rows_stores c _ (CNum <$> (geom_area <$> geoms))); [done| |].
      { by rewrite !length_fmap. }
      intros i k v w' Hk Hv Hw'. rewrite !list_lookup_fmap in Hv.
      destruct (geoms !! i) as [g|] eqn:Hgi; simplify_eq/=.
      erewrite bind_returned;
        [|eapply getitem_row_at; [by rewrite setitem_lookup_ne|by rewrite list_lookup_fmap, Hgi]].
      done. }
  erewrite bind_returned; [|done].
  unfold ret. rewrite to_column_CNum. simpl. by rewrite <- app_assoc.
Qed.

Lemma perimeter_run (c : string) (w : world) (geoms : list (geometry V point)) :
  NoDup (index (objects w)) →
  "geometry" ≠ c →
  geometry_column (objects w) = Some geoms →
  length geoms = length (index (objects w)) →
  perimeter c w =
    (World (Frame (index (objects w))
              (<[c := CNum <$> (geom_length <$> geoms)]> (columns (objects w))))
           (stdout w ++ ["Calculating perimeters..."; "Perimeters calculated."]),
     Returned RObjects).
Proof.
  intros Hnd Hgc Hg Hlen. unfold perimeter.
  erewrite bind_returned; [|apply define_new_column_run].
  erewrite bind_returned; [|done]. simpl.
  apply geometry_column_lookup in Hg.
  erewrite bind_returned.
  2:{ apply (for_rows_stores c _ (CNum <$> (geom_length <$> geoms))); [done| |].
      { by rewrite !length_fmap. }
      intros i k v w' Hk Hv Hw'. rewrite !list_lookup_fmap in Hv.
      destruct (geoms !! i) as [g|] eqn:Hgi; simplify_eq/=.
      erewrite bind_returned;
        [|eapply getitem_row_at; [by rewrite setitem_lookup_ne|by rewrite list_lookup_fmap, Hgi]].
      done. }
  erewrite bind_returned; [|done].
  unfold ret. rewrite to_column_CNum. simpl. by rewrite <- app_assoc.
Qed.




Lemma courtyard_area_run (c a : string) (b : bool) (w : world)
    (geoms : list (geometry V point)) (exts areas : list V) :
  NoDup (index (objects w)) →
  "geometry" ≠ c → area_source_column a b ≠ c →
  geometry_column (objects w) = Some geoms →
  mapM exterior_area geoms = Some exts →
  area_source (objects w) a b = Some areas →
  length geoms = length (index (objects w)) →
  length areas = length (index (objects w)) →
  courtyard_area c a b w =
    (World (Frame (index (objects w))
              (<[c := CNum <$> zip_with sub exts areas]> (columns (objects w))))
           (stdout w ++ ["Calculating courtyard areas..."; "Core area indices calculated."]),
     Returned RObjects).
Proof.
  intros Hnd Hgc Hac Hg He Ha Hlg Hla. unfold courtyard_area.
  erewrite bind_returned; [|apply define_new_column_run].
  erewrite bind_returned; [|done]. simpl.
  pose proof (geometry_column_lookup _ _ Hg) as Hg'. apply mapM_Some in He.
  pose proof (Forall2_length _ _ _ He) as Hle.
  set (vs := CNum <$> zip_with sub exts areas).
  assert (Hvs : length vs = length (index (objects w))).
  { unfold vs. rewrite length_fmap, length_zip_with. lia. }
  assert (Hbody : ∀ i k v (w' : world), vs !! i = Some v →
    (g <- getitem (row_at (setitem c (replicate (length (index (objects w))) (missing c))
                             (objects w)) i) "geometry" ;;
     e <- exterior_area_of g ;;
     x <- (if b then getitem (row_at (setitem c (replicate (length (index (objects w)))
                                                  (missing c)) (objects w)) i) a
           else bind (getitem (row_at (setitem c (replicate (length (index (objects w)))
                                                    (missing c)) (objects w)) i) "geometry")
                     area_of) ;;
     v <- binop sub e x ;;
     store k c v) w'
    = (World (loc_set k c v (objects w')) (stdout w'), Returned tt)).
  { intros i k v w'. unfold vs. rewrite list_lookup_fmap, lookup_zip_with.
    destruct (exts !! i) as [e|] eqn:Hei; simpl; [|done].
    destruct (areas !! i) as [x|] eqn:Hxi; simpl; [|done]. intros [= <-].
    destruct (Forall2_lookup_r _ _ _ _ _ He Hei) as (g & Hgi & Hge).
    erewrite bind_returned;
      [|eapply getitem_row_at; [by rewrite setitem_lookup_ne|by rewrite list_lookup_fmap, Hgi]].
    unfold exterior_area_of, geom_attr. rewrite Hge. cbn [fmap option_fmap option_map lift].
    erewrite bind_returned; [|done].
    erewrite bind_returned; [|by apply (area_source_getitem _ c a b areas i x)].
    done. }
  destruct b.
  - erewrite bind_returned.
    2:{ apply try_returned. erewrite bind_returned; [done|].
        apply (for_rows_stores c _ vs); [done..|].
        intros i k v w' Hk Hv Hw'. by apply (Hbody i). }
    unfold vs, ret. rewrite to_column_CNum. simpl. by rewrite <- app_assoc.
  - erewrite bind_returned.
    2:{ erewrite bind_returned; [done|].
        apply (for_rows_stores c _ vs); [done..|].
        intros i k v w' Hk Hv Hw'. rewrite <- (Hbody i k v w' Hv).
        unfold bind. destruct (getitem _ "geometry" w') as [w1 [g|e]]; [|done].
        destruct (exterior_area_of g w1) as [w2 [e|e]]; [|done].
        destruct (getitem _ "geometry" w2) as [w3 [g'|e']]; [|done].
        by destruct (area_of g' w3) as [w4 [x|e']]. }
    unfold vs, ret. rewrite to_column_CNum. simpl. by rewrite <- app_assoc.
Qed.

(** ** Labels that occur more than once *)

Lemma last_position_snoc (idx : list Z) (x k : Z) :
  last_position (idx ++ [x]) k =
    if decide (x = k) then Some (length idx) else last_position idx k.
Proof.
  induction idx as [|l idx IH]; simpl.
  - by case_decide.
  - rewrite IH. case_decide; [done|]. by destruct (last_position idx k).
Qed.

Lemma last_position_lookup (idx : list Z) (k : Z) (j : nat) :
  last_position idx k = Some j → idx !! j = Some k.
Proof.
  revert j. induction idx as [|l idx IH]; intros j; simpl; [done|].
  destruct (last_position idx k) as [j'|].
  - intros [= <-]. by apply IH.
  - case_decide; [|done]. intros [= <-]. simpl. by f_equal.
Qed.

Lemma last_position_is_Some (idx : list Z) (k : Z) (i : nat) :
  idx !! i = Some k → is_Some (last_position idx k).
Proof.
  revert i. induction idx as [|l idx IH]; intros i; simpl; [done|].
  destruct i as [|i]; simpl.
  - intros [= ->]. destruct (last_position idx k); [by eexists|].
    rewrite decide_True by done. by eexists.
  - intros Hi. destruct (IH i Hi) as [j ->]. by eexists.
Qed.

Lemma last_position_NoDup (idx : list Z) (k : Z) (i : nat) :
  NoDup idx → idx !! i = Some k → last_position idx k = Some i.
Proof.
  intros Hnd Hi. destruct (last_position_is_Some idx k i Hi) as [j Hj].
  rewrite Hj. f_equal. apply last_position_lookup in Hj.
  by eapply NoDup_lookup.
Qed.

Lemma foldl_set_where_length (c : string) (idx : list Z) (kvs : list (Z * cell)) (col : list cell) :
  length col = length idx →
  length (foldl (λ col kv, set_where idx kv.1 (to_column c kv.2) col) col kvs) = length idx.
Proof.
  revert col. induction kvs as [|kv kvs IH]; intros col Hlen; simpl; [done|].
  apply IH. by apply set_where_length.
Qed.

Lemma foldl_set_where_last (c : string) (idx : list Z) (vs col : list cell) (n i : nat) (k : Z) :
  length vs = length idx → length col = length idx →
  idx !! i = Some k →
  foldl (λ col kv, set_where idx kv.1 (to_column c kv.2) col) col
        (zip (take n idx) (take n vs)) !! i
  = match last_position (take n idx) k with
    | Some j => to_column c <$> vs !! j
    | None => col !! i
    end.
Proof.
  intros Hvs Hcol Hi. induction n as [|n IH]; [done|].
  destruct (decide (n < length idx)) as [Hn|Hn].
  - destruct (lookup_lt_is_Some_2 idx n Hn) as [kn Hkn].
    destruct (lookup_lt_is_Some_2 vs n ltac:(lia)) as [v Hv].
    rewrite (take_S_r idx n kn), (take_S_r vs n v) by done.
    rewrite zip_with_app by (rewrite !length_take; lia).
    rewrite foldl_app, last_position_snoc. simpl.
    set (col' := foldl _ col _) in *.
    assert (Hlen' : length col' = length idx) by by apply foldl_set_where_length.
    destruct (lookup_lt_is_Some_2 col' i) as [x Hx].
    { rewrite Hlen'. by eapply lookup_lt_Some. }
    unfold set_where. rewrite lookup_zip_with, Hi, Hx. simpl.
    rewrite length_take, Nat.min_l by lia.
    destruct (decide (kn = k)) as [->|Hne].
    + rewrite decide_True by done. by rewrite Hv.
    + rewrite decide_False by done. by rewrite <- IH, Hx.
  - rewrite !take_ge in * by lia. done.
Qed.

(** A pass over a frame whose labels may repeat: every row ends up with
    the value computed for the last row under its label. *)
Lemma for_rows_last_wins (c : string) (body : Z → row → py unit) (vs : list cell)
    (df : DataFrame) (out : list string) :
  let df1 := setitem c (replicate (length (index df)) (missing c)) df in
  length vs = length (index df) →
  (∀ i k v w, index df !! i = Some k → vs !! i = Some v →
     same_but c df1 (objects w) →
     body k (row_at df1 i) w = (World (loc_set k c v (objects w)) (stdout w), Returned tt)) →
  ∃ col,
    for_rows body (World df1 out) =
      (World (Frame (index df) (<[c := col]> (columns df))) out, Returned tt) ∧
    length col = length (index df) ∧
    ∀ i k j, index df !! i = Some k → last_position (index df) k = Some j →
             col !! i = to_column c <$> vs !! j.
Proof.
  intros df1 Hlen Hbody. rewrite for_rows_run. simpl.
  assert (HP : ∀ (w : world) k (v : cell), same_but c df1 (objects w) →
             same_but c df1 (objects (World (loc_set k c v (objects w)) (stdout w)))).
  { intros w k v Hw. simpl. eapply same_but_trans; [exact Hw|]. apply loc_set_same_but. }
  rewrite (for_each_stores c (λ w, same_but c df1 (objects w)) _ HP (iterrows df1) vs);
    [| |apply same_but_refl].
  2:{ apply Forall2_same_length_lookup_2.
      - unfold iterrows. rewrite length_imap. simpl. by rewrite Hlen.
      - intros i [k r] v Hi Hv w Hw. rewrite iterrows_lookup in Hi. simpl in Hi.
        destruct (index df !! i) as [k'|] eqn:Hk; simplify_eq/=. by apply Hbody. }
  simpl. rewrite iterrows_keys.
  erewrite (store_all_column c _ df1); [|by simpl; rewrite lookup_insert_eq].
  simpl. rewrite insert_insert_eq. eexists. split; [done|]. split.
  - rewrite foldl_set_where_length; [done|by rewrite length_replicate].
  - intros i k j Hi Hj.
    pose proof (foldl_set_where_last c (index df) vs
                  (replicate (length (index df)) (missing c)) (length (index df)) i k
                  Hlen ltac:(by rewrite length_replicate) Hi) as Hf.
    rewrite !take_ge in Hf by lia. by rewrite Hf, Hj.
Qed.

(** ** A pass that fails on the way *)

Lemma for_each_app {A} (xs ys : list A) (body : A → py unit) (w : world) :
  for_each (xs ++ ys) body w = (for_each xs body ;;; for_each ys body) w.
Proof.
  revert w. induction xs as [|x xs IH]; intros w; simpl.
  - done.
  - unfold bind. destruct (body x w) as [w' [[]|e]]; [|done].
    rewrite IH. done.
Qed.

(** The rows before the first one that raises keep their values, that row
    and the rows after it keep the missing value of the preamble. *)
Lemma for_rows_stops (c : string) (body : Z → row → py unit) (vs : list cell)
    (df : DataFrame) (out : list string) (k : Z) (e : exn) :
  let df1 := setitem c (replicate (length (index df)) (missing c)) df in
  NoDup (index df) →
  index df !! length vs = Some k →
  (∀ i k' v w, index df !! i = Some k' → vs !! i = Some v →
     same_but c df1 (objects w) →
     body k' (row_at df1 i) w = (World (loc_set k' c v (objects w)) (stdout w), Returned tt)) →
  (∀ w, same_but c df1 (objects w) → body k (row_at df1 (length vs)) w = (w, Raised e)) →
  for_rows body (World df1 out) =
    (World (Frame (index df)
              (<[c := (to_column c <$> vs) ++
                      replicate (length (index df) - length vs) (missing c)]> (columns df)))
           out, Raised e).
Proof.
  intros df1 Hnd Hk Hbody Hbad. rewrite for_rows_run. simpl.
  pose proof (lookup_lt_Some _ _ _ Hk) as Hlt.
  assert (HP : ∀ (w : world) k (v : cell), same_but c df1 (objects w) →
             same_but c df1 (objects (World (loc_set k c v (objects w)) (stdout w)))).
  { intros w k0 v Hw. simpl. eapply same_but_trans; [exact Hw|]. apply loc_set_same_but. }
  rewrite <- (take_drop (length vs) (iterrows df1)), for_each_app.
  erewrite bind_returned.
  2:{ apply (for_each_stores c (λ w, same_but c df1 (objects w)) _ HP _ vs);
        [|apply same_but_refl].
      apply Forall2_same_length_lookup_2.
      - rewrite length_take. unfold iterrows. rewrite length_imap. simpl. lia.
      - intros i [k' r] v Hi Hv w Hw. rewrite lookup_take_Some in Hi.
        destruct Hi as [Hi _]. rewrite iterrows_lookup in Hi. simpl in Hi.
        destruct (index df !! i) as [k''|] eqn:Hk'; simplify_eq/=. by apply Hbody. }
  rewrite (drop_S _ (k, row_at df1 (length vs))) by (by rewrite iterrows_lookup; simpl; rewrite Hk).
  simpl. erewrite bind_raised.
  2:{ apply Hbad. simpl.
      clear -HP. set (kvs := zip _ vs). generalize kvs. clear kvs.
      intros kvs. unfold store_all.
      assert (Hgen : ∀ df2, same_but c df1 df2 →
                same_but c df1 (foldl (λ df kv, loc_set kv.1 c kv.2 df) df2 kvs)).
      { induction kvs as [|kv kvs IH]; intros df2 Hdf2; simpl; [done|].
        apply IH. apply (HP (World df2 [])). done. }
      apply Hgen, same_but_refl. }
  do 2 f_equal. rewrite fmap_take, iterrows_keys. simpl.
  erewrite (store_all_column c _ df1); [|by simpl; rewrite lookup_insert_eq].
  simpl. rewrite insert_insert_eq. do 2 f_equal.
  pose proof (foldl_set_where c (index df)
                (vs ++ replicate (length (index df) - length vs) CNone)
                (replicate (length (index df)) (missing c)) (length vs) Hnd) as Hf.
  rewrite take_app_length in Hf. rewrite Hf.
  - rewrite fmap_app, take_app_length' by (by rewrite length_fmap).
    by rewrite drop_replicate.
  - rewrite length_app, length_replicate. lia.
  - by rewrite length_replicate.
Qed.

(** ** What a call depends on *)




















(** ** [area] on frames that are not as expected *)

Lemma area_last_wins (c : string) (w : world) (geoms : list (geometry V point)) :
  "geometry" ≠ c →
  geometry_column (objects w) = Some geoms →
  length geoms = length (index (objects w)) →
  ∃ col,
    area c w =
      (World (Frame (index (objects w)) (<[c := col]> (columns (objects w))))
             (stdout w ++ ["Calculating areas..."; "Areas calculated."]),
       Returned RObjects) ∧
    length col = length (index (objects w)) ∧
    ∀ i k j, index (objects w) !! i = Some k →
             last_position (index (objects w)) k = Some j →
             col !! i = (λ g, CNum (geom_area g)) <$> geoms !! j.
Proof.
  intros Hgc Hg Hlen. unfold area.
  apply geometry_column_lookup in Hg.
  destruct (for_rows_last_wins c
              (λ index row, g <- getitem row "geometry" ;; v <- area_of g ;; store index c v)
              (CNum <$> (geom_area <$> geoms)) (objects w)
              (stdout w ++ ["Calculating areas..."]))
    as (col & Hrun & Hcol & Hlast).
  { by rewrite !length_fmap. }
  { intros i k v w' Hk Hv Hw'. rewrite !list_lookup_fmap in Hv.
    destruct (geoms !! i) as [g|] eqn:Hgi; simplify_eq/=.
    erewrite bind_returned;
      [|eapply getitem_row_at; [by rewrite setitem_lookup_ne|by rewrite list_lookup_fmap, Hgi]].
    done. }
  exists col. split_and!; [|done|].
  - erewrite bind_returned; [|apply define_new_column_run].
    erewrite bind_returned; [|done]. simpl.
    erewrite bind_returned; [|exact Hrun].
    erewrite bind_returned; [|done].
    unfold ret. simpl. by rewrite <- app_assoc.
  - intros i k j Hi Hj. rewrite (Hlast i k j Hi Hj), !list_lookup_fmap.
    by destruct (geoms !! j).
Qed.

Lemma area_stops (c : string) (w : world) (geoms : list (geometry V point))
    (x : cell) (rest : list cell) (k : Z) :
  NoDup (index (objects w)) →
  "geometry" ≠ c →
  columns (objects w) !! "geometry" = Some ((CGeom <$> geoms) ++ x :: rest) →
  (∀ g, x ≠ CGeom g) →
  index (objects w) !! length geoms = Some k →
  area c w =
    (World (Frame (index (objects w))
              (<[c := (CNum <$> (geom_area <$> geoms)) ++
                      replicate (length (index (objects w)) - length geoms) (missing c)]>
                 (columns (objects w))))
           (stdout w ++ ["Calculating areas..."]),
     Raised (AttributeError "area")).
Proof.
  intros Hnd Hgc Hg Hx Hk. unfold area.
  erewrite bind_returned; [|apply define_new_column_run].
  erewrite bind_returned; [|done]. simpl.
  erewrite bind_raised.
  2:{ apply (for_rows_stops c _ (CNum <$> (geom_area <$> geoms)) _ _ k
               (AttributeError "area")); [done|by rewrite !length_fmap| |].
      - intros i k' v w' Hk' Hv Hw'. rewrite !list_lookup_fmap in Hv.
        destruct (geoms !! i) as [g|] eqn:Hgi; simplify_eq/=.
        erewrite bind_returned;
          [|eapply getitem_row_at; [by rewrite setitem_lookup_ne|]].
        2:{ rewrite lookup_app_l by (rewrite length_fmap; by eapply lookup_lt_Some).
            by rewrite list_lookup_fmap, Hgi. }
        done.
      - intros w' Hw'. rewrite !length_fmap.
        erewrite bind_returned;
          [|eapply getitem_row_at; [by rewrite setitem_lookup_ne|]].
        2:{ rewrite lookup_app_r by (by rewrite length_fmap).
            rewrite length_fmap, Nat.sub_diag. done. }
        destruct x as [|v|g]; [done|done|by destruct (Hx g)]. }
  rewrite to_column_CNum, !length_fmap. done.
Qed.

(** ** One call after another *)

Lemma numeric_column_insert (df : DataFrame) (c : string) (xs : list V) :
  numeric_column (Frame (index df) (<[c := CNum <$> xs]> (columns df))) c = Some xs.
Proof.
  unfold numeric_column. simpl. rewrite lookup_insert_eq. simpl.
  apply mapM_Some, Forall2_fmap_l, Forall_Forall2_diag, Forall_true. done.
Qed.

Lemma numeric_column_insert_ne (df : DataFrame) (c c' : string) (col : list cell) :
  c' ≠ c →
  numeric_column (Frame (index df) (<[c := col]> (columns df))) c' = numeric_column df c'.
Proof. intros Hne. unfold numeric_column. simpl. by rewrite lookup_insert_ne. Qed.

Lemma geometry_column_insert_ne (df : DataFrame) (c : string) (col : list cell) :
  "geometry" ≠ c →
  geometry_column (Frame (index df) (<[c := col]> (columns df))) = geometry_column df.
Proof. intros Hne. unfold geometry_column. simpl. by rewrite lookup_insert_ne. Qed.

(** Once [area] has filled column [a], the functions that take an area
    give the same frame and the same lines whether they are told to read
    [a] or to measure the geometry again. *)
Lemma area_then_flag (c a h : string) (w : world)
    (geoms : list (geometry V point)) (heights : list V) :
  NoDup (index (objects w)) →
  geometry_column (objects w) = Some geoms →
  numeric_column (objects w) h = Some heights →
  length geoms = length (index (objects w)) →
  length heights = length (index (objects w)) →
  "geometry" ≠ a → h ≠ a → a ≠ c → "geometry" ≠ c → h ≠ c →
  let w1 := (area a w).1 in
  (volume c a h true w1).1 = (volume c a h false w1).1 ∧
  (floor_area c a h true w1).1 = (floor_area c a h false w1).1.
Proof.
  intros Hnd Hg Hh Hlg Hlh Hga Hha Hac Hgc Hhc w1.
  unfold w1. rewrite (area_run a w geoms) by done. simpl.
  set (df1 := Frame _ _).
  assert (Hsrc : ∀ b, area_source df1 a b = Some (geom_area <$> geoms)).
  { intros []; simpl.
    - apply (numeric_column_insert (objects w)).
    - unfold df1. rewrite geometry_column_insert_ne by done. by rewrite Hg. }
  assert (Hh1 : numeric_column df1 h = Some heights).
  { unfold df1. by rewrite numeric_column_insert_ne. }
  assert (Hne : ∀ b, area_source_column a b ≠ c) by (by intros []).
  split.
  - rewrite (volume_run c a h true _ (geom_area <$> geoms) heights),
            (volume_run c a h false _ (geom_area <$> geoms) heights);
      rewrite ?length_fmap; done.
  - rewrite (floor_area_run c a h true _ (geom_area <$> geoms) heights),
            (floor_area_run c a h false _ (geom_area <$> geoms) heights);
      rewrite ?length_fmap; done.
Qed.

Lemma area_then_courtyard_flag (c a : string) (w : world)
    (geoms : list (geometry V point)) (exts : list V) :
  NoDup (index (objects w)) →
  geometry_column (objects w) = Some geoms →
  mapM exterior_area geoms = Some exts →
  length geoms = length (index (objects w)) →
  "geometry" ≠ a → a ≠ c → "geometry" ≠ c →
  let w1 := (area a w).1 in
  courtyard_area c a true w1 = courtyard_area c a false w1.
Proof.
  intros Hnd Hg He Hlg Hga Hac Hgc w1.
  unfold w1. rewrite (area_run a w geoms) by done. simpl.
  set (df1 := Frame _ _).
  assert (Hg1 : geometry_column df1 = Some geoms).
  { unfold df1. by rewrite geometry_column_insert_ne. }
  assert (Hsrc : ∀ b, area_source df1 a b = Some (geom_area <$> geoms)).
  { intros []; simpl.
    - apply (numeric_column_insert (objects w)).
    - by rewrite Hg1. }
  assert (Hne : ∀ b, area_source_column a b ≠ c) by (by intros []).
  rewrite (courtyard_area_run c a true _ geoms exts (geom_area <$> geoms)),
          (courtyard_area_run c a false _ geoms exts (geom_area <$> geoms));
    rewrite ?length_fmap; done.
Qed.

(** ** What a call prints *)

Lemma prints_nothing_ret {A} (a : A) : prints_nothing (ret a : py A).
Proof. done. Qed.

Lemma prints_nothing_raise {A} e : prints_nothing (@raise V point A e).
Proof. done. Qed.

Lemma prints_nothing_lift {A} e (o : option A) : prints_nothing (lift e o : py A).
Proof. by destruct o. Qed.

Lemma prints_nothing_get_objects : prints_nothing (get_objects : py DataFrame).
Proof. done. Qed.

Lemma prints_nothing_bind {A B} (m : py A) (k : A → py B) :
  prints_nothing m → (∀ a, prints_nothing (k a)) → prints_nothing (bind m k).
Proof.
  intros Hm Hk w. specialize (Hm w). unfold bind.
  destruct (m w) as [w1 [a|e]]; simpl in *; [|done]. by rewrite Hk.
Qed.

Lemma prints_nothing_for_each {A} (xs : list A) (body : A → py unit) :
  (∀ x, prints_nothing (body x)) → prints_nothing (for_each xs body).
Proof.
  intros Hb. induction xs as [|x xs IH]; simpl; [done|].
  apply prints_nothing_bind; [apply Hb|done].
Qed.

Lemma prints_nothing_for_fold {A S} (xs : list A) (s : S) (body : S → A → py S) :
  (∀ s x, prints_nothing (body s x)) → prints_nothing (for_fold xs s body).
Proof.
  intros Hb. revert s. induction xs as [|x xs IH]; intros s; simpl; [done|].
  apply prints_nothing_bind; [apply Hb|done].
Qed.

Lemma prints_nothing_store k c (v : cell) : prints_nothing (store k c v).
Proof. intros w. unfold store. by destruct (takes c v). Qed.

Lemma prints_nothing_for_rows (body : Z → row → py unit) :
  (∀ k r, prints_nothing (body k r)) → prints_nothing (for_rows body).
Proof.
  intros Hb. apply prints_nothing_bind; [done|].
  intros df. apply prints_nothing_for_each. intros [k r]. apply Hb.
Qed.

Lemma prints_nothing_getitem (r : row) a : prints_nothing (getitem r a).
Proof. apply prints_nothing_lift. Qed.

Lemma prints_nothing_binop f (a b : cell) : prints_nothing (binop f a b).
Proof. by destruct a, b. Qed.

Lemma prints_nothing_geom_attr {A} attr (f : geometry V point → option A) a :
  prints_nothing (geom_attr attr f a).
Proof. destruct a; simpl; first [apply prints_nothing_lift|done]. Qed.

Lemma prints_nothing_hull_coords_of (a : cell) : prints_nothing (hull_coords_of a).
Proof. destruct a; simpl; first [apply prints_nothing_lift|done]. Qed.

Lemma prints_nothing_longest_axis (make_circle : list point → option (V * V * V)) pts :
  prints_nothing (longest_axis make_circle pts).
Proof. unfold longest_axis. by destruct (make_circle pts) as [[[? ?] ?]|]. Qed.

End MoreRuns.

Ltac silent :=
  repeat first
    [ apply prints_nothing_ret | apply prints_nothing_raise
    | apply prints_nothing_store | apply prints_nothing_getitem | apply prints_nothing_binop
    | apply prints_nothing_geom_attr | apply prints_nothing_hull_coords_of
    | apply prints_nothing_longest_axis
    | apply prints_nothing_lift | apply prints_nothing_get_objects
    | apply prints_nothing_for_rows; intros ? ?
    | apply prints_nothing_for_fold; intros ? ?
    | apply prints_nothing_bind; [|intros ?]
    | match goal with |- prints_nothing (if ?b then _ else _) => destruct b end ].


Section MoreCalls.
Context {V : Type} `{Number V} {point : Type}.
Variable make_circle : list point → option (V * V * V).



(** ** Frames without rows, frames without an input column *)

Lemma run_call_no_rows (call : metric_call) (w : world V point) :
  index (objects w) = [] →
  run_call make_circle call w =
    (World (setitem (column_of call) [] (objects w))
           (stdout w ++ first_line call :: closing_lines call),
     Returned (returned_by call)).
Proof.
  intros Hidx.
  destruct call as [c|c|c o|c f t|c a h b|c a h b|c a b|c|c sw a]; simpl;
    [unfold area|unfold perimeter|unfold height_os|unfold height_prg|unfold volume
    |unfold floor_area|unfold courtyard_area|unfold longest_axis_length
    |unfold effective_mesh];
    (erewrite bind_returned; [|apply define_new_column_run]);
    (erewrite bind_returned; [|done]); rewrite Hidx; simpl;
    try destruct b; simpl;
    try (erewrite bind_returned; [|by apply for_rows_empty];
         simpl; unfold bind, print, ret; simpl; by rewrite <- app_assoc).
  - erewrite bind_returned.
    2:{ eapply try_returned. erewrite bind_returned; [|by apply for_rows_empty]. done. }
    unfold ret; simpl. by rewrite <- app_assoc.
  - erewrite bind_returned.
    2:{ eapply try_returned. erewrite bind_returned; [|by apply for_rows_empty]. done. }
    unfold ret; simpl. by rewrite <- app_assoc.
  - erewrite bind_returned.
    2:{ erewrite bind_returned; [|by apply for_rows_empty]. done. }
    unfold ret; simpl. by rewrite <- app_assoc.
  - erewrite bind_returned.
    2:{ eapply try_returned. erewrite bind_returned; [|by apply for_rows_empty]. done. }
    unfold ret; simpl. by rewrite <- app_assoc.
  - erewrite bind_returned.
    2:{ erewrite bind_returned; [|by apply for_rows_empty]. done. }
    unfold ret; simpl. by rewrite <- app_assoc.
  - erewrite bind_returned; [|by apply for_rows_empty]. done.
Qed.

Lemma row_at_setitem_missing (c col : string) (xs : list (cell V point))
    (df : DataFrame V point) (i : nat) :
  col ≠ c → columns df !! col = None → row_at (setitem c xs df) i !! col = None.
Proof.
  intros Hne Hcol. rewrite row_at_lookup. simpl.
  by rewrite lookup_insert_ne, Hcol.
Qed.

Lemma run_call_missing_input (call : metric_call) (w : world V point) (col : string) :
  first_read call = Some col → col ≠ column_of call →
  columns (objects w) !! col = None → index (objects w) ≠ [] →
  run_call make_circle call w =
    (World (setitem (column_of call)
              (replicate (length (index (objects w))) (missing (column_of call))) (objects w))
           (stdout w ++ [first_line call]),
     Raised (KeyError (KStr col))).
Proof.
  intros Hfirst Hne Hcol Hidx.
  destruct (index (objects w)) as [|k rest] eqn:Hk; [done|].
  assert (Hmiss : ∀ xs (w' : world V point),
            getitem (row_at (setitem (column_of call) xs (objects w)) 0) col w'
            = (w', Raised (KeyError (KStr col)))).
  { intros xs w'. unfold getitem. by rewrite row_at_setitem_missing. }
  destruct call as [c|c|c o|c f t|c a h b|c a h b|c a b|c|c sw a]; simpl in *;
    try destruct b; simplify_eq/=;
    [unfold area|unfold perimeter|unfold height_os|unfold height_prg|unfold volume
    |unfold floor_area|unfold courtyard_area|unfold longest_axis_length];
    (erewrite bind_returned; [|apply define_new_column_run]);
    (erewrite bind_returned; [|done]); rewrite Hk; simpl;
    try (erewrite bind_raised; [done|];
         eapply for_rows_first_raises; [simpl; exact Hk|];
         erewrite bind_raised; [done|]; apply Hmiss).
  - erewrite bind_raised; [done|]. erewrite bind_raised; [done|].
    eapply for_rows_first_raises; [simpl; exact Hk|].
    erewrite bind_raised; [done|]; apply Hmiss.
  - erewrite bind_raised; [done|]. erewrite bind_raised; [done|].
    eapply for_rows_first_raises; [simpl; exact Hk|].
    erewrite bind_raised; [done|]; apply Hmiss.
Qed.

(** ** A height column that is not there *)

Lemma guarded_missing_height (c a h : string) (w : world V point) :
  column_full a (objects w) → columns (objects w) !! h = None →
  a ≠ c → h ≠ c → index (objects w) ≠ [] →
  volume c a h true w =
    (World (setitem c (replicate (length (index (objects w))) (missing c)) (objects w))
           (stdout w ++ ["Calculating volumes..."; area_column_not_found a]),
     Returned RNone) ∧
  floor_area c a h true w =
    (World (setitem c (replicate (length (index (objects w))) (missing c)) (objects w))
           (stdout w ++ ["Calculating floor areas..."; area_column_not_found a]),
     Returned RObjects).
Proof.
  intros (col & Ha & Hlen) Hh Hac Hhc Hidx.
  destruct (index (objects w)) as [|k0 rest] eqn:Hk; [done|].
  destruct col as [|x col]; [done|].
  split; [unfold volume|unfold floor_area].
  all: erewrite bind_returned; [|apply define_new_column_run].
  all: erewrite bind_returned; [|done]; simpl.
  all: erewrite bind_returned;
    [|apply guarded_pass_missing; intros k w'; eexists;
      (erewrite bind_returned;
         [|eapply getitem_row_at; [by rewrite setitem_lookup_ne|done]]);
      (erewrite bind_raised;
         [|apply getitem_row_at_missing; by rewrite setitem_lookup_ne]);
      done].
  all: unfold ret, last_message; simpl; rewrite Hk; by rewrite <- app_assoc.
Qed.

Lemma unguarded_missing_height (c a h : string) (w : world V point)
    (gcol : list (cell V point)) (g : geometry V point) :
  columns (objects w) !! "geometry" = Some gcol → gcol !! 0 = Some (CGeom g) →
  columns (objects w) !! h = None →
  "geometry" ≠ c → h ≠ c → index (objects w) ≠ [] →
  volume c a h false w =
    (World (setitem c (replicate (length (index (objects w))) (missing c)) (objects w))
           (stdout w ++ ["Calculating volumes..."]),
     Raised (KeyError (KStr h))) ∧
  floor_area c a h false w =
    (World (setitem c (replicate (length (index (objects w))) (missing c)) (objects w))
           (stdout w ++ ["Calculating floor areas..."]),
     Raised (KeyError (KStr h))).
Proof.
  intros Hg Hg0 Hh Hgc Hhc Hidx.
  destruct (index (objects w)) as [|k0 rest] eqn:Hk; [done|].
  split; [unfold volume|unfold floor_area].
  all: erewrite bind_returned; [|apply define_new_column_run].
  all: erewrite bind_returned; [|done]; rewrite Hk; simpl.
  - erewrite bind_raised; [done|].
    eapply for_rows_first_raises; [simpl; exact Hk|].
    erewrite bind_returned;
      [|eapply getitem_row_at; [by rewrite setitem_lookup_ne|done]].
    erewrite bind_returned; [|done].
    erewrite bind_raised; [done|].
    apply getitem_row_at_missing. by rewrite setitem_lookup_ne.
  - erewrite bind_raised; [done|]. erewrite bind_raised; [done|].
    eapply for_rows_first_raises; [simpl; exact Hk|].
    erewrite bind_returned;
      [|eapply getitem_row_at; [by rewrite setitem_lookup_ne|done]].
    erewrite bind_returned; [|done].
    erewrite bind_raised; [done|].
    apply getitem_row_at_missing. by rewrite setitem_lookup_ne.
Qed.

(** ** What the [try] lets through *)

Lemma try_print_no_KeyError (m : py V point unit) (s : string) (w : world V point) (k : key) :
  (try_except_KeyError m (print s) w).2 ≠ Raised (KeyError k).
Proof.
  unfold try_except_KeyError. destruct (m w) as [w' [a|e]]; simpl; [done|].
  destruct e; simpl; done.
Qed.

Lemma bind_ret_outcome {A B} (m : py V point A) (b : B) (w : world V point) (e : exn) :
  (bind m (λ _, ret b) w).2 = Raised e → (m w).2 = Raised e.
Proof. unfold bind. destruct (m w) as [w' [a|e']]; simpl; [done|]. congruence. Qed.

Lemma guarded_no_KeyError (call : metric_call) (w : world V point) (k : key) :
  is_Some (error_line call) →
  (run_call make_circle call w).2 ≠ Raised (KeyError k).
Proof.
  intros [l Hl] Hr.
  destruct call as [c|c|c o|c f t|c a h b|c a h b|c a b|c|c sw a]; simpl in *;
    try destruct b; simplify_eq/=.
  - unfold volume in Hr.
    erewrite bind_returned in Hr; [|apply define_new_column_run].
    erewrite bind_returned in Hr; [|done].
    apply bind_ret_outcome in Hr. by apply try_print_no_KeyError in Hr.
  - unfold floor_area in Hr.
    erewrite bind_returned in Hr; [|apply define_new_column_run].
    erewrite bind_returned in Hr; [|done].
    apply bind_ret_outcome in Hr. by apply try_print_no_KeyError in Hr.
  - unfold courtyard_area in Hr.
    erewrite bind_returned in Hr; [|apply define_new_column_run].
    erewrite bind_returned in Hr; [|done].
    apply bind_ret_outcome in Hr. by apply try_print_no_KeyError in Hr.
Qed.

(** ** Errors no handler catches *)


Lemma effective_mesh_missing_area (c a : string) (sw : weights) (w : world V point)
    (k : Z) (rest : list Z) :
  a ≠ c →
  index (objects w) = k :: rest →
  is_Some (neighbors sw !! k) →
  columns (objects w) !! a = None →
  effective_mesh c sw a w =
    (World (setitem c (replicate (length (index (objects w))) (missing c)) (objects w))
           (stdout w ++ ["Calculating effective mesh size..."]),
     Raised (KeyError (KStr a))).
Proof.
  intros Hac Hk [ns Hns] Ha. unfold effective_mesh.
  erewrite bind_returned; [|apply define_new_column_run].
  erewrite bind_returned; [|done]. simpl.
  erewrite bind_raised; [done|].
  eapply for_rows_first_raises; [simpl; exact Hk|].
  rewrite Hns. cbn [lift]. erewrite bind_returned; [|done].
  erewrite bind_raised; [done|].
  apply getitem_row_at_missing. by rewrite setitem_lookup_ne.
Qed.

Lemma longest_axis_length_stops (c : string) (w : world V point)
    (geoms : list (geometry V point)) (axes : list V)
    (g : geometry V point) (rest : list (cell V point)) (k : Z) (e : exn) :
  NoDup (index (objects w)) →
  "geometry" ≠ c →
  columns (objects w) !! "geometry" = Some ((CGeom <$> geoms) ++ CGeom g :: rest) →
  mapM (axis_of make_circle) geoms = Some axes →
  index (objects w) !! length geoms = Some k →
  (hull_exterior_coords g = None ∧ e = AttributeError "exterior") ∨
  (∃ pts, hull_exterior_coords g = Some pts ∧ make_circle pts = None ∧ e = TypeError) →
  longest_axis_length make_circle c w =
    (World (Frame (index (objects w))
              (<[c := (CNum <$> axes) ++
                      replicate (length (index (objects w)) - length geoms) (missing c)]>
                 (columns (objects w))))
           (stdout w ++ ["Calculating the longest axis..."]),
     Raised e).
Proof.
  intros Hnd Hgc Hg Hax Hk He. unfold longest_axis_length.
  erewrite bind_returned; [|apply define_new_column_run].
  erewrite bind_returned; [|done]. simpl.
  apply mapM_Some in Hax. pose proof (Forall2_length _ _ _ Hax) as Hlen.
  erewrite bind_raised.
  2:{ apply (for_rows_stops c _ (CNum <$> axes) _ _ k e);
        [done|by rewrite length_fmap, <- Hlen| |].
      - intros i k' v w' Hk' Hv Hw'. rewrite list_lookup_fmap in Hv.
        destruct (axes !! i) as [x|] eqn:Hx; simplify_eq/=.
        destruct (Forall2_lookup_r _ _ _ _ _ Hax Hx) as (g' & Hgi & Hgx).
        erewrite bind_returned;
          [|eapply getitem_row_at; [by rewrite setitem_lookup_ne|]].
        2:{ rewrite lookup_app_l by (rewrite length_fmap; by eapply lookup_lt_Some).
            by rewrite list_lookup_fmap, Hgi. }
        unfold axis_of in Hgx. simpl.
        destruct (hull_exterior_coords g') as [pts|]; simplify_eq/=.
        unfold bind, longest_axis. simpl.
        destruct (make_circle pts) as [[[cx cy] r]|]; simplify_eq/=. done.
      - intros w' Hw'. rewrite length_fmap, <- Hlen.
        erewrite bind_returned;
          [|eapply getitem_row_at; [by rewrite setitem_lookup_ne|]].
        2:{ rewrite lookup_app_r by (by rewrite length_fmap).
            rewrite length_fmap, Nat.sub_diag. done. }
        simpl. destruct He as [[Hh ->]|(pts & Hh & Hmc & ->)]; rewrite Hh; simpl.
        + done.
        + unfold bind, longest_axis. simpl. by rewrite Hmc. }
  rewrite to_column_CNum, length_fmap, <- Hlen. done.
Qed.

(** ** The output column named as an input *)

Lemma volume_over_its_area (c h : string) (w : world V point) (heights : list V) :
  (∀ y : V, mul nan y = nan) →
  NoDup (index (objects w)) →
  c ≠ "geometry" → h ≠ c →
  numeric_column (objects w) h = Some heights →
  length heights = length (index (objects w)) →
  volume c c h true w =
    (World (setitem c (replicate (length (index (objects w))) (CNum nan)) (objects w))
           (stdout w ++ ["Calculating volumes..."; "Volumes calculated."]),
     Returned RNone) ∧
  floor_area c c h true w =
    (World (setitem c (replicate (length (index (objects w))) (CNum nan)) (objects w))
           (stdout w ++ ["Calculating floor areas..."; "Floor areas calculated."]),
     Returned RObjects).
Proof.
  intros Hnan Hnd Hcg Hhc Hh Hlen.
  apply numeric_column_lookup in Hh.
  assert (Hm : missing c = (CNum nan : cell V point))
    by (unfold missing; by rewrite decide_False).
  split; [unfold volume|unfold floor_area].
  all: erewrite bind_returned; [|apply define_new_column_run].
  all: erewrite bind_returned; [|done]; rewrite Hm; simpl.
  all: erewrite bind_returned.
  2,4: eapply try_returned; erewrite bind_returned; [done|].
  2,3: rewrite <- Hm;
    apply (for_rows_stores c _ (replicate (length (index (objects w))) (CNum nan)));
    [done|by rewrite length_replicate|];
    intros i k v w' Hk Hv Hw'; apply lookup_replicate in Hv as [-> Hi];
    destruct (lookup_lt_is_Some_2 heights i) as [y Hy]; [by rewrite Hlen|];
    (erewrite bind_returned;
       [|eapply getitem_row_at;
         [simpl; by rewrite lookup_insert_eq|rewrite Hm; by apply lookup_replicate_2]]);
    (erewrite bind_returned;
       [|eapply getitem_row_at;
         [by rewrite setitem_lookup_ne|by rewrite list_lookup_fmap, Hy]]);
    simpl; unfold bind, ret; simpl; by rewrite ?Hnan.
  all: unfold ret, setitem; simpl; rewrite <- app_assoc; simpl.
  all: by rewrite fmap_replicate.
Qed.

(** ** The lines of a call *)

Lemma run_call_prints (call : metric_call) (w : world V point) :
  let r := run_call make_circle call w in
  match r.2 with
  | Returned _ =>
      stdout r.1 = stdout w ++ first_line call :: closing_lines call ∨
      ∃ l, error_line call = Some l ∧ stdout r.1 = stdout w ++ [first_line call; l]
  | Raised _ => stdout r.1 = stdout w ++ [first_line call]
  end.
Proof.
  destruct call as [c|c|c o|c f t|c a h b|c a h b|c a b|c|c sw a]; simpl;
    [unfold area|unfold perimeter|unfold height_os|unfold height_prg|unfold volume
    |unfold floor_area|unfold courtyard_area|unfold longest_axis_length
    |unfold effective_mesh];
    (erewrite bind_returned; [|apply define_new_column_run]);
    (erewrite bind_returned; [|done]); simpl; try destruct b.
  all: lazymatch goal with
       | |- context [for_rows ?body] =>
           let Hp := fresh "Hp" in
           assert (Hp : prints_nothing (for_rows body))
             by (apply prints_nothing_for_rows; intros ? ?; silent);
           set (m := for_rows body) in *
       end.
  all: unfold bind, try_except_KeyError, print, ret;
    lazymatch goal with
    | Hp : prints_nothing ?m |- context [?m ?w1] =>
        specialize (Hp w1); destruct (m w1) as [w2 [[]|e]]
    end;
    simpl in *; try destruct (is_KeyError e); simpl;
    rewrite Hp, <- ?app_assoc; simpl; eauto.
Qed.

End MoreCalls.

(** ** What holds of the rows before a failure, whatever fails *)

Section Prefix.
Context {V : Type} `{Number V} {point : Type}.

#[local] Abbreviation cell := (cell V point).
#[local] Abbreviation DataFrame := (DataFrame V point).
#[local] Abbreviation world := (world V point).
#[local] Abbreviation py := (py V point).
#[local] Abbreviation row := (gmap string cell).

Lemma try_other {A} (m h : py A) (w w' : world) (e : exn) :
  m w = (w', Raised e) → is_KeyError e = false →
  try_except_KeyError m h w = (w', Raised e).
Proof. intros Hm He. unfold try_except_KeyError. by rewrite Hm, He. Qed.

Lemma bind_objects {A B} (m : py A) (k : A → py B) (w : world) :
  (∀ a w', objects (k a w').1 = objects w') →
  objects (bind m k w).1 = objects (m w).1.
Proof.
  intros Hk. unfold bind. destruct (m w) as [w1 [a|e]]; simpl; [apply Hk|done].
Qed.

Lemma for_each_preserves {A} (P : world → Prop) (xs : list A) (body : A → py unit) :
  (∀ x w, x ∈ xs → P w → P (body x w).1) →
  ∀ w, P w → P (for_each xs body w).1.
Proof.
  induction xs as [|x xs IH]; intros Hb w Hw; simpl; [done|].
  unfold bind. pose proof (Hb x w ltac:(left) Hw) as Hx.
  destruct (body x w) as [w1 [[]|e]]; simpl in *; [|done].
  apply IH; [|done]. intros x' w' Hx'. apply Hb. by right.
Qed.

(** The first rows of a pass, each of which stores its value. *)
Lemma for_each_first_rows (c : string) (body : Z → row → py unit) (vs : list cell)
    (df : DataFrame) (out : list string) :
  let df1 := setitem c (replicate (length (index df)) (missing c)) df in
  NoDup (index df) →
  length vs ≤ length (index df) →
  (∀ i k v w, index df !! i = Some k → vs !! i = Some v →
     same_but c df1 (objects w) →
     body k (row_at df1 i) w = (World (loc_set k c v (objects w)) (stdout w), Returned tt)) →
  for_each (take (length vs) (iterrows df1)) (λ kr, body kr.1 kr.2) (World df1 out) =
    (World (Frame (index df)
              (<[c := (to_column c <$> vs) ++
                      replicate (length (index df) - length vs) (missing c)]> (columns df)))
           out, Returned tt).
Proof.
  intros df1 Hnd Hle Hbody.
  assert (HP : ∀ (w : world) k (v : cell), same_but c df1 (objects w) →
             same_but c df1 (objects (World (loc_set k c v (objects w)) (stdout w)))).
  { intros w k0 v Hw. simpl. eapply same_but_trans; [exact Hw|]. apply loc_set_same_but. }
  rewrite (for_each_stores c (λ w, same_but c df1 (objects w)) _ HP _ vs);
    [| |apply same_but_refl].
  2:{ apply Forall2_same_length_lookup_2.
      - rewrite length_take. unfold iterrows. rewrite length_imap. simpl. lia.
      - intros i [k' r] v Hi Hv w Hw. rewrite lookup_take_Some in Hi.
        destruct Hi as [Hi _]. rewrite iterrows_lookup in Hi. simpl in Hi.
        destruct (index df !! i) as [k''|] eqn:Hk'; simplify_eq/=. by apply Hbody. }
  do 2 f_equal. rewrite fmap_take, iterrows_keys. simpl.
  erewrite (store_all_column c _ df1); [|by simpl; rewrite lookup_insert_eq].
  simpl. rewrite insert_insert_eq. do 2 f_equal.
  pose proof (foldl_set_where c (index df)
                (vs ++ replicate (length (index df) - length vs) CNone)
                (replicate (length (index df)) (missing c)) (length vs) Hnd) as Hf.
  rewrite take_app_length in Hf. rewrite Hf.
  - rewrite fmap_app, take_app_length' by (by rewrite length_fmap).
    by rewrite drop_replicate.
  - rewrite length_app, length_replicate. lia.
  - by rewrite length_replicate.
Qed.

(** A pass whose rows either store one value under their own label or
    raise: the rows that come before the first failure keep the values
    stored for them, whatever the later rows do. *)
Lemma for_rows_prefix (c : string) (body : Z → row → py unit) (vs : list cell)
    (df : DataFrame) (out : list string) :
  let df1 := setitem c (replicate (length (index df)) (missing c)) df in
  NoDup (index df) →
  length vs ≤ length (index df) →
  (∀ i k v w, index df !! i = Some k → vs !! i = Some v →
     same_but c df1 (objects w) →
     body k (row_at df1 i) w = (World (loc_set k c v (objects w)) (stdout w), Returned tt)) →
  (∀ k r w, (∃ e, body k r w = (w, Raised e)) ∨
            (∃ v, body k r w = (World (loc_set k c v (objects w)) (stdout w), Returned tt))) →
  ∃ col, columns (objects (for_rows body (World df1 out)).1) !! c = Some col ∧
         take (length vs) col = to_column c <$> vs.
Proof.
  intros df1 Hnd Hle Hbody Hcases. rewrite for_rows_run. simpl.
  rewrite <- (take_drop (length vs) (iterrows df1)), for_each_app.
  erewrite bind_returned; [|by apply for_each_first_rows].
  set (P := λ w : world,
         index (objects w) = index df ∧
         ∃ col, columns (objects w) !! c = Some col ∧
                length col = length (index df) ∧
                take (length vs) col = to_column c <$> vs).
  assert (HP : P (for_each (drop (length vs) (iterrows df1)) (λ kr, body kr.1 kr.2)
                    (World (Frame (index df)
                              (<[c := (to_column c <$> vs) ++
                                      replicate (length (index df) - length vs) (missing c)]>
                                 (columns df))) out)).1).
  { apply (for_each_preserves P).
    - intros [k r] w Hx (Hidx & col & Hcol & Hlen & Htake).
      apply list_elem_of_lookup_1 in Hx as [j Hj].
      rewrite lookup_drop, iterrows_lookup in Hj. simpl in Hj.
      destruct (index df !! (length vs + j)) as [k'|] eqn:Hk; simplify_eq/=.
      destruct (Hcases k (row_at df1 (length vs + j)) w) as [[e ->]|[v ->]]; simpl.
      + split; [done|]. by exists col.
      + split; [done|]. unfold loc_set. simpl. rewrite lookup_insert_eq, Hcol. simpl.
        eexists. split; [done|]. rewrite Hidx.
        rewrite (set_where_insert _ (length vs + j)) by done.
        rewrite length_insert. split; [done|].
        by rewrite take_insert_ge by lia.
    - split; [done|]. simpl. rewrite lookup_insert_eq. eexists. split; [done|]. split.
      + rewrite length_app, length_fmap, length_replicate. lia.
      + by rewrite take_app_length' by (by rewrite length_fmap). }
  destruct HP as (_ & col & Hcol & _ & Htake). by exists col.
Qed.

(** ** The longest axis, object by object *)

Lemma longest_axis_length_prefix (make_circle : list point → option (V * V * V))
    (c : string) (w : world) (gcol : list cell)
    (geoms : list (geometry V point)) (axes : list V) :
  NoDup (index (objects w)) →
  "geometry" ≠ c →
  columns (objects w) !! "geometry" = Some gcol →
  take (length geoms) gcol = CGeom <$> geoms →
  length geoms ≤ length (index (objects w)) →
  mapM (axis_of make_circle) geoms = Some axes →
  ∃ col, columns (objects (longest_axis_length make_circle c w).1) !! c = Some col ∧
         take (length geoms) col = CNum <$> axes.
Proof.
  intros Hnd Hgc Hg Htake Hle Hax. unfold longest_axis_length.
  erewrite bind_returned; [|apply define_new_column_run].
  erewrite bind_returned; [|done]. simpl.
  rewrite bind_objects by done.
  apply mapM_Some in Hax. pose proof (Forall2_length _ _ _ Hax) as Hlen.
  destruct (for_rows_prefix c
              (λ index row,
                 g <- getitem row "geometry" ;;
                 pts <- hull_coords_of g ;;
                 v <- longest_axis make_circle pts ;;
                 store index c v)
              (CNum <$> axes) (objects w) (stdout w ++ ["Calculating the longest axis..."]))
    as (col & Hcol & Hcol').
  - done.
  - rewrite length_fmap. lia.
  - intros i k v w' Hk Hv Hw'. rewrite list_lookup_fmap in Hv.
    destruct (axes !! i) as [x|] eqn:Hx; simplify_eq/=.
    destruct (Forall2_lookup_r _ _ _ _ _ Hax Hx) as (g & Hgi & Hgx).
    erewrite bind_returned;
      [|eapply getitem_row_at; [by rewrite setitem_lookup_ne|]].
    2:{ rewrite <- (lookup_take_lt _ (length geoms)) by (by eapply lookup_lt_Some).
        by rewrite Htake, list_lookup_fmap, Hgi. }
    unfold axis_of in Hgx. simpl.
    destruct (hull_exterior_coords g) as [pts|]; simplify_eq/=.
    unfold bind, longest_axis. simpl.
    destruct (make_circle pts) as [[[cx cy] r]|]; simplify_eq/=. done.
  - intros k r w'. unfold getitem, bind, longest_axis.
    destruct (r !! "geometry") as [[|x|g]|]; simpl; eauto.
    destruct (hull_exterior_coords g) as [pts|]; simpl; eauto.
    destruct (make_circle pts) as [[[cx cy] rd]|]; simpl; eauto.
  - exists col. split; [done|].
    rewrite length_fmap, <- Hlen in Hcol'. by rewrite Hcol', to_column_CNum.
Qed.

Lemma longest_axis_length_last_wins (make_circle : list point → option (V * V * V))
    (c : string) (w : world) (geoms : list (geometry V point)) (axes : list V) :
  "geometry" ≠ c →
  geometry_column (objects w) = Some geoms →
  length geoms = length (index (objects w)) →
  mapM (axis_of make_circle) geoms = Some axes →
  ∃ col,
    columns (objects (longest_axis_length make_circle c w).1) !! c = Some col ∧
    ∀ i k j, index (objects w) !! i = Some k →
             last_position (index (objects w)) k = Some j →
             col !! i = CNum <$> axes !! j.
Proof.
  intros Hgc Hg Hlen Hax. unfold longest_axis_length.
  apply geometry_column_lookup in Hg.
  apply mapM_Some in Hax. pose proof (Forall2_length _ _ _ Hax) as Hlen'.
  destruct (for_rows_last_wins c
              (λ index row,
                 g <- getitem row "geometry" ;;
                 pts <- hull_coords_of g ;;
                 v <- longest_axis make_circle pts ;;
                 store index c v)
              (CNum <$> axes) (objects w)
              (stdout w ++ ["Calculating the longest axis..."]))
    as (col & Hrun & Hcol & Hlast).
  { rewrite length_fmap. lia. }
  { intros i k v w' Hk Hv Hw'. rewrite list_lookup_fmap in Hv.
    destruct (axes !! i) as [x|] eqn:Hx; simplify_eq/=.
    destruct (Forall2_lookup_r _ _ _ _ _ Hax Hx) as (g & Hgi & Hgx).
    erewrite bind_returned;
      [|eapply getitem_row_at; [by rewrite setitem_lookup_ne|by rewrite list_lookup_fmap, Hgi]].
    unfold axis_of in Hgx. simpl.
    destruct (hull_exterior_coords g) as [pts|]; simplify_eq/=.
    unfold bind, longest_axis. simpl.
    destruct (make_circle pts) as [[[cx cy] r]|]; simplify_eq/=. done. }
  exists col. split.
  - erewrite bind_returned; [|apply define_new_column_run].
    erewrite bind_returned; [|done]. simpl.
    erewrite bind_returned; [|exact Hrun].
    simpl. by rewrite lookup_insert_eq.
  - intros i k j Hi Hj. rewrite (Hlast i k j Hi Hj), !list_lookup_fmap.
    by destruct (axes !! j).
Qed.

(** ** [courtyard_area] when the first row has no exterior ring *)

Lemma courtyard_area_lacks_exterior (c a : string) (b : bool) (w : world) :
  first_row_lacks_exterior (objects w) → "geometry" ≠ c →
  courtyard_area c a b w =
    (World (setitem c (replicate (length (index (objects w))) (missing c)) (objects w))
           (stdout w ++ ["Calculating courtyard areas..."]),
     Raised (AttributeError "exterior")).
Proof.
  intros Hfirst Hgc. unfold first_row_lacks_exterior in Hfirst.
  destruct (index (objects w)) as [|k rest] eqn:Hk; [done|].
  destruct (columns (objects w) !! "geometry") as [gcol|] eqn:Hg; [|done].
  destruct (gcol !! 0) as [x|] eqn:Hx; [|done].
  unfold courtyard_area.
  erewrite bind_returned; [|apply define_new_column_run].
  erewrite bind_returned; [|done]. rewrite Hk. simpl.
  assert (Hbody : ∀ (rest' : cell → py unit) (w' : world),
            (g <- getitem (row_at (setitem c (replicate (S (length rest)) (missing c))
                                      (objects w)) 0) "geometry" ;;
             e <- exterior_area_of g ;; rest' e) w'
            = (w', Raised (AttributeError "exterior"))).
  { intros rest' w'.
    erewrite bind_returned;
      [|eapply getitem_row_at; [by rewrite setitem_lookup_ne|done]].
    erewrite bind_raised; [done|].
    destruct x as [|v|g]; [done|done|]. simpl. by rewrite Hfirst. }
  erewrite bind_raised; [done|]. destruct b.
  - apply try_other; [|done]. erewrite bind_raised; [done|].
    eapply for_rows_first_raises; [simpl; exact Hk|]. apply Hbody.
  - erewrite bind_raised; [done|].
    eapply for_rows_first_raises; [simpl; exact Hk|]. apply Hbody.
Qed.

End Prefix.

(** ** The default index: an identifier is a position *)








Section DefaultIndex.
Context {V : Type} `{Number V} {point : Type}.




End DefaultIndex.

(** ** The mean without neighbours, the mean of equal areas *)




(** ** The square with side 4 *)

Lemma square4_circle :
  ∃ x y, MEC.enclosingCircle MoreSamples.ring4 = Some (x, y, sqrt 8).
Proof.
  destruct (MECFacts.enclosingCircle_smallest MoreSamples.ring4)
    as ([[x y] r] & Hc & Hcand & Hmin); [done|].
  exists x, y. rewrite Hc. do 2 f_equal.
  assert (Hs8 : (sqrt 8 * sqrt 8 = 8)%R) by (apply sqrt_sqrt; lra).
  pose proof (sqrt_pos 8) as Hs0.
  apply Rle_antisym.
  - apply (Hmin (2, 2, sqrt 8)%R). split_and!; [done| |].
    + intros p Hp. apply MECFacts.dist_le_iff; [done|]. unfold MoreSamples.ring4 in Hp.
      rewrite !elem_of_cons in Hp.
      destruct Hp as [->|[->|[->|[->|[->|Hp%elem_of_nil]]]]]; [..|done];
        unfold MEC.sq_dist, MEC.center; simpl; lra.
    + intros p Hp. by apply elem_of_nil in Hp.
  - destruct Hcand as (Hr & He & _).
    assert (H0 : (MEC.dist (x, y) (0, 0) <= r)%R) by (apply (He (0, 0)%R); left).
    assert (H4 : (MEC.dist (x, y) (4, 4) <= r)%R).
    { apply (He (4, 4)%R). do 2 right. left. }
    apply MECFacts.dist_le_iff in H0, H4; [|done..]. unfold MEC.sq_dist in *; simpl in *.
    pose proof (Rle_0_sqr (x - 2)) as Hx. pose proof (Rle_0_sqr (y - 2)) as Hy.
    unfold Rsqr in Hx, Hy.
    assert (Hr8 : (8 <= r * r)%R) by lra.
    rewrite <- (sqrt_square r) by done. apply sqrt_le_1_alt. lra.
Qed.

Lemma same_label_axes :
  mapM (axis_of exact_make_circle) [Samples.square2; MoreSamples.square4]
    = Some [Some (sqrt 2 * 2)%R; Some (sqrt 8 * 2)%R].
Proof.
  destruct MECFacts.square_circle as (cx & cy & Hc).
  destruct square4_circle as (cx' & cy' & Hc').
  apply mapM_Some. repeat constructor.
  - unfold axis_of, exact_make_circle, Samples.square2.
    cbn [hull_exterior_coords mbind option_bind]. rewrite Hc. done.
  - unfold axis_of, exact_make_circle, MoreSamples.square4.
    cbn [hull_exterior_coords mbind option_bind]. rewrite Hc'. done.
Qed.

(** ** Values a column does not take, columns a call should not name *)

Section Columns.
Context {V : Type} `{Number V} {point : Type}.
Variable make_circle : list point → option (V * V * V).

Lemma height_os_stops (c o : string) (w : world V point)
    (vs : list (cell V point)) (g : geometry V point) (rest : list (cell V point)) (k : Z) :
  NoDup (index (objects w)) →
  o ≠ c → c ≠ "geometry" →
  columns (objects w) !! o = Some (vs ++ CGeom g :: rest) →
  Forall number_or_None vs →
  index (objects w) !! length vs = Some k →
  height_os c o w =
    (World (Frame (index (objects w))
              (<[c := (to_column c <$> vs) ++
                      replicate (length (index (objects w)) - length vs) (missing c)]>
                 (columns (objects w))))
           (stdout w ++ ["Calculating heights..."]),
     Raised TypeError).
Proof.
  intros Hnd Hoc Hcg Ho Hnum Hk. unfold height_os.
  erewrite bind_returned; [|apply define_new_column_run].
  erewrite bind_returned; [|done]. simpl.
  erewrite bind_raised; [done|].
  apply (for_rows_stops c _ vs _ _ k TypeError); [done|done| |].
  - intros i k' v w' Hk' Hv Hw'.
    erewrite bind_returned;
      [|eapply getitem_row_at; [by rewrite setitem_lookup_ne|]].
    2:{ rewrite lookup_app_l by (by eapply lookup_lt_Some). done. }
    rewrite Forall_lookup in Hnum.
    by destruct (Hnum i v Hv) as [->|[x ->]].
  - intros w' Hw'.
    erewrite bind_returned;
      [|eapply getitem_row_at; [by rewrite setitem_lookup_ne|]].
    2:{ rewrite lookup_app_r by done. by rewrite Nat.sub_diag. }
    unfold store, takes. by rewrite bool_decide_false.
Qed.

Lemma run_call_into_geometry (call : metric_call) (w : world V point) (attr : string) :
  geometry_attribute call = Some attr → column_of call = "geometry" →
  index (objects w) ≠ [] →
  run_call make_circle call w =
    (World (setitem "geometry" (replicate (length (index (objects w))) CNone) (objects w))
           (stdout w ++ [first_line call]),
     Raised (AttributeError attr)).
Proof.
  intros Hattr Hc Hidx.
  destruct (index (objects w)) as [|k rest] eqn:Hk; [done|].
  assert (Hgeom : ∀ (w' : world V point),
            getitem (row_at (setitem "geometry" (replicate (S (length rest)) CNone)
                               (objects w)) 0) "geometry" w'
            = (w', Returned CNone)).
  { intros w'. eapply getitem_row_at; [by simpl; rewrite lookup_insert_eq|done]. }
  destruct call as [c|c|c o|c f t|c a h b|c a h b|c a b|c|c sw a]; simpl in *;
    try destruct b; simplify_eq/=;
    [unfold area|unfold perimeter|unfold volume|unfold floor_area
    |unfold courtyard_area|unfold courtyard_area|unfold longest_axis_length];
    (erewrite bind_returned; [|apply define_new_column_run]);
    (erewrite bind_returned; [|done]); rewrite Hk; simpl;
    change (missing "geometry") with (@CNone V point).
  - erewrite bind_raised; [done|].
    eapply for_rows_first_raises; [simpl; exact Hk|].
    erewrite bind_returned; [|apply Hgeom]. done.
  - erewrite bind_raised; [done|].
    eapply for_rows_first_raises; [simpl; exact Hk|].
    erewrite bind_returned; [|apply Hgeom]. done.
  - erewrite bind_raised; [done|].
    eapply for_rows_first_raises; [simpl; exact Hk|].
    erewrite bind_returned; [|apply Hgeom]. done.
  - erewrite bind_raised; [done|]. erewrite bind_raised; [done|].
    eapply for_rows_first_raises; [simpl; exact Hk|].
    erewrite bind_returned; [|apply Hgeom]. done.
  - erewrite bind_raised; [done|]. apply try_other; [|done].
    erewrite bind_raised; [done|].
    eapply for_rows_first_raises; [simpl; exact Hk|].
    erewrite bind_returned; [|apply Hgeom]. done.
  - erewrite bind_raised; [done|]. erewrite bind_raised; [done|].
    eapply for_rows_first_raises; [simpl; exact Hk|].
    erewrite bind_returned; [|apply Hgeom]. done.
  - erewrite bind_raised; [done|].
    eapply for_rows_first_raises; [simpl; exact Hk|].
    erewrite bind_returned; [|apply Hgeom]. done.
Qed.

End Columns.
(** * Main results *)

(** C8.  Every call of a function of the module, whether it returns or
    raises, leaves the frame with the same index, with the column named by
    the caller in place (one cell per object), and with every other column
    exactly as it was: nothing is removed, nothing else is written. *)
Theorem metric_call_writes_one_column :
  ∀ (V : Type) (HV : Number V) (point : Type)
    (make_circle : list point → option (V * V * V))
    (call : metric_call) (w : world V point),
  let w' := (run_call make_circle call w).1 in
  index (objects w') = index (objects w) ∧
  (∃ col, columns (objects w') !! column_of call = Some col ∧
          length col = length (index (objects w))) ∧
  (∀ c, c ≠ column_of call → columns (objects w') !! c = columns (objects w) !! c).
Proof.
  intros V HV point make_circle call w w'.
  destruct (run_call_frame make_circle call w) as [[Hidx Hcols] (col & Hcol & Hlen)].
  fold w' in Hidx, Hcols, Hcol, Hlen. split_and!; [done| |done].
  exists col. split; [done|]. by rewrite Hlen, Hidx.
Qed.



(** C1.  For every non-empty sequence of points, in whatever order the
    solver takes them, it returns a circle; every point lies in it, a
    fortiori within any tolerance [eps ≥ 0]; and no circle whose radius is
    smaller by more than [eps] bounds all the points. *)
Theorem enclosingCircle_minimal (points order : list MEC.point) (eps : R) :
  points ≠ [] → order ≡ₚ points → (0 <= eps)%R →
  ∃ c, MEC.enclosingCircle order = Some c ∧
       (0 <= MEC.radius c)%R ∧
       (∀ p, p ∈ points → (MEC.dist (MEC.center c) p <= MEC.radius c + eps)%R) ∧
       (∀ c', (MEC.radius c' < MEC.radius c - eps)%R →
              ¬ ∀ p, p ∈ points → (MEC.dist (MEC.center c') p <= MEC.radius c')%R).
Proof.
  intros Hne Hperm Heps.
  assert (Hne' : order ≠ []).
  { intros ->. by apply Permutation_nil_l in Hperm. }
  destruct (MECFacts.enclosingCircle_smallest order Hne') as (c & Hc & Hsmall).
  apply (MECFacts.smallest_permutation _ _ points) in Hsmall; [|done].
  destruct Hsmall as [(Hr & He & _) Hmin].
  exists c. split_and!; [done..| |].
  - intros p Hp. specialize (He p Hp). lra.
  - intros c' Hlt Hall.
    destruct (Rle_or_lt 0 (MEC.radius c')) as [Hr'|Hr'].
    + assert (MEC.radius c <= MEC.radius c')%R; [|lra].
      apply Hmin. split_and!; [done..|]. intros p Hp. by apply elem_of_nil in Hp.
    + destruct points as [|p points]; [done|].
      specialize (Hall p ltac:(left)). pose proof (MECFacts.dist_nonneg (MEC.center c') p). lra.
Qed.

Lemma enclosingCircle_minimal_witness :
  let points := [(0, 0); (4, 0); (0, 3)]%R in
  ∃ c, MEC.enclosingCircle [(4, 0); (0, 3); (0, 0)]%R = Some c ∧
       (0 <= MEC.radius c)%R ∧
       (∀ p, p ∈ points → (MEC.dist (MEC.center c) p <= MEC.radius c + 0)%R) ∧
       (∀ c', (MEC.radius c' < MEC.radius c - 0)%R →
              ¬ ∀ p, p ∈ points → (MEC.dist (MEC.center c') p <= MEC.radius c')%R).
Proof.
  apply (enclosingCircle_minimal [(0, 0); (4, 0); (0, 3)]%R
           [(4, 0); (0, 3); (0, 0)]%R 0).
  - done.
  - symmetry. apply (Permutation_cons_append [(4, 0); (0, 3)]%R).
  - apply Rle_refl.
Defined.

(** C2, as stated, fails: take the squares with side 2 and side 4 under
    one label.  [loc] writes to every row a label names, so the first
    object, the square with side 2, ends up with the axis of the second
    and not with its own 2√2. *)
Lemma longest_axis_length_repeated_label :
  index (objects MoreSamples.same_label_squares) = [0; 0]%Z ∧
  columns (objects MoreSamples.same_label_squares) !! "geometry" ≫= (.!! 0)
    = Some (CGeom Samples.square2) ∧
  axis_of exact_make_circle Samples.square2 = Some (Some (2 * sqrt 2)%R) ∧
  columns (objects (longest_axis_length exact_make_circle "longest_axis"
                      MoreSamples.same_label_squares).1) !! "longest_axis" ≫= (.!! 0)
    ≠ Some (CNum (Some (2 * sqrt 2)%R)).
Proof.
  split_and!; [reflexivity|reflexivity| |].
  - destruct MECFacts.square_circle as (cx & cy & Hc).
    unfold axis_of, exact_make_circle, Samples.square2.
    cbn [hull_exterior_coords mbind option_bind]. rewrite Hc. simpl.
    by rewrite (Rmult_comm 2).
  - destruct (longest_axis_length_last_wins exact_make_circle "longest_axis"
                MoreSamples.same_label_squares
                [Samples.square2; MoreSamples.square4]
                [Some (sqrt 2 * 2)%R; Some (sqrt 8 * 2)%R])
      as (col & Hcol & Hlast); [done|reflexivity|reflexivity|apply same_label_axes|].
    rewrite Hcol. simpl. rewrite (Hlast 0 0%Z 1) by reflexivity. simpl.
    intros Heq. assert (Hs : sqrt 8 = sqrt 2) by (simplify_eq; lra).
    apply sqrt_inj in Hs; lra.
Qed.

(** C2, amended.  In a frame with distinct labels, take an object such
    that it and every object before it is a geometry whose convex hull has
    an exterior ring for which [make_circle] returns a circle.  Then the
    column holds for that object the radius of that circle times 2,
    whether the pass goes on to the end or raises at a later object.  With
    the solver of the spec, the square with side 2 gets its diagonal,
    2√2. *)
Theorem longest_axis_length_per_object :
  (∀ (V : Type) (HV : Number V) (point : Type)
     (make_circle : list point → option (V * V * V))
     (c : string) (w : world V point) (gcol : list (cell V point))
     (geoms : list (geometry V point)) (axes : list V) (i : nat) (x : V),
     NoDup (index (objects w)) →
     "geometry" ≠ c →
     columns (objects w) !! "geometry" = Some gcol →
     take (length geoms) gcol = CGeom <$> geoms →
     length geoms ≤ length (index (objects w)) →
     mapM (axis_of make_circle) geoms = Some axes →
     axes !! i = Some x →
     columns (objects (longest_axis_length make_circle c w).1) !! c ≫= (.!! i)
       = Some (CNum x)) ∧
  columns (objects (longest_axis_length exact_make_circle "longest_axis"
                      Samples.one_square).1) !! "longest_axis"
    = Some [CNum (Some (2 * sqrt 2)%R)].
Proof.
  split.
  - intros V HV point make_circle c w gcol geoms axes i x Hnd Hgc Hg Htake Hle Hax Hx.
    destruct (longest_axis_length_prefix make_circle c w gcol geoms axes)
      as (col & Hcol & Hcol'); try done.
    rewrite Hcol. simpl.
    assert (Hi : i < length geoms).
    { apply mapM_Some, Forall2_length in Hax. rewrite Hax. by eapply lookup_lt_Some. }
    by rewrite <- (lookup_take_lt col (length geoms) i Hi), Hcol', list_lookup_fmap, Hx.
  - rewrite square_axis_run by done. simpl. rewrite lookup_insert_eq.
    by rewrite (Rmult_comm 2).
Qed.

Lemma longest_axis_length_per_object_witness :
  columns (objects (longest_axis_length exact_make_circle "longest_axis"
                      MoreSamples.square_then_line).1) !! "longest_axis" ≫= (.!! 0)
    = Some (CNum (Some (sqrt 2 * 2)%R)).
Proof.
  apply (proj1 longest_axis_length_per_object Exact.num _ MEC.point exact_make_circle
           "longest_axis" MoreSamples.square_then_line
           [CGeom Samples.square2; CGeom MoreSamples.segment]
           [Samples.square2] [Some (sqrt 2 * 2)%R] 0 (Some (sqrt 2 * 2)%R)).
  - repeat (apply NoDup_cons_2; [rewrite ?elem_of_cons, elem_of_nil; intuition lia|]).
    apply NoDup_nil_2.
  - done.
  - reflexivity.
  - reflexivity.
  - simpl. lia.
  - apply square_axis.
  - reflexivity.
Defined.

(** C3.  The helper [sort_NoneType] gives 0 for a missing geometry and for
    a geometry that is not a polygon, but the pass of
    [longest_axis_length] does not go through it: a missing geometry
    raises AttributeError at [.convex_hull] and leaves NaN in the column,
    and a line is measured like a polygon. *)
Theorem longest_axis_length_skips_sort_NoneType :
  ∀ mc : list Samples.fpoint → option (Binary64.float * Binary64.float * Binary64.float),
  sort_NoneType mc CNone Samples.missing_geometry
    = (Samples.missing_geometry, Returned (CNum (Samples.f 0))) ∧
  (longest_axis_length mc "longest_axis" Samples.missing_geometry).2
    = Raised (AttributeError "convex_hull") ∧
  columns (objects (longest_axis_length mc "longest_axis" Samples.missing_geometry).1)
    !! "longest_axis" = Some [CNum nan] ∧
  sort_NoneType mc (CGeom Samples.centre_line) Samples.one_line
    = (Samples.one_line, Returned (CNum (Samples.f 0))) ∧
  columns (objects (longest_axis_length mc "longest_axis" Samples.one_line).1)
    !! "longest_axis"
    = Some [CNum (match mc Samples.ring10 with
                  | Some c => mul c.2 (Samples.f 2)
                  | None => nan
                  end)].
Proof.
  intros mc. split_and!; try (vm_compute; done).
  vm_compute. destruct (mc _) as [[[x y] r]|]; done.
Qed.







(** C6.  [effective_mesh] looks a neighbour up with [iloc], by position,
    where the weights and the write go by label.  So a neighbour that is
    the identifier of no object does not make the call fail: in the frame
    labelled 0, 1, 2 the neighbour -1 reads the last plot, and in the
    frame labelled 10, 11, 12 the neighbours 0 and 1 read the first and
    the second plot; both calls return and write a mean. *)
Theorem effective_mesh_negative_neighbour :
  ((-1)%Z ∉ index (objects Samples.three_plots)) ∧
  neighbors Samples.neighbour_minus_one !! 0%Z = Some [(-1)%Z] ∧
  (effective_mesh "mesh" Samples.neighbour_minus_one "area" Samples.three_plots).2
    = Returned RNone ∧
  columns (objects (effective_mesh "mesh" Samples.neighbour_minus_one "area"
                      Samples.three_plots).1) !! "mesh" ≫= (.!! 0)
    = Some (CNum (truediv (add Binary64.one_tenth Binary64.one_tenth) (of_Z 2))) ∧
  (1%Z ∉ index (objects MoreSamples.plots_from_ten)) ∧
  neighbors MoreSamples.strangers !! 10%Z = Some [1%Z] ∧
  (effective_mesh "mesh" MoreSamples.strangers "area" MoreSamples.plots_from_ten).2
    = Returned RNone.
Proof.
  split_and!; try (vm_compute; reflexivity);
    simpl; rewrite !elem_of_cons, elem_of_nil; intuition lia.
Qed.

(** C4, as stated, fails: two buildings, no area column; [volume] does not
    fail, it returns, and the second building is not processed either. *)
Lemma volume_missing_area_no_failure :
  columns (objects Samples.no_area_column) !! "area" = None ∧
  (volume "volume" "area" "height" true Samples.no_area_column).2 = Returned RNone ∧
  columns (objects (volume "volume" "area" "height" true Samples.no_area_column).1)
    !! "volume" = Some [CNum nan; CNum nan].
Proof. split_and!; vm_compute; reflexivity. Qed.

(** C4, amended.  With [area_calculated=True], at least one object, no
    area column and an output column other than the area column,
    [volume], [floor_area] and (when the first geometry has an exterior
    ring and the output column is not the geometry column)
    [courtyard_area] do not fail: the KeyError of the first object is
    caught, the last line printed names the missing area column, the pass
    is abandoned, and no object gets a value: the output column holds the
    missing value of the preamble throughout. *)
Theorem missing_area_column_message :
  ∀ (V : Type) (HV : Number V) (point : Type)
    (c a h : string) (w : world V point),
  columns (objects w) !! a = None → a ≠ c →
  index (objects w) ≠ [] →
  let nothing := Some (replicate (length (index (objects w))) (missing c)) in
  let message :=
    "ERROR: Building area column named " +:+ a +:+
    " not found. Define area_column or set area_calculated to False." in
  (let w' := volume c a h true w in
   w'.2 = Returned RNone ∧ columns (objects w'.1) !! c = nothing ∧
   stdout w'.1 = stdout w ++ ["Calculating volumes..."; message]) ∧
  (let w' := floor_area c a h true w in
   w'.2 = Returned RObjects ∧ columns (objects w'.1) !! c = nothing ∧
   stdout w'.1 = stdout w ++ ["Calculating floor areas..."; message]) ∧
  ("geometry" ≠ c → first_row_has_exterior (objects w) →
   let w' := courtyard_area c a true w in
   w'.2 = Returned RObjects ∧ columns (objects w'.1) !! c = nothing ∧
   stdout w'.1 = stdout w ++ ["Calculating courtyard areas..."; message]).
Proof.
  intros V HV point c a h w Ha Hac Hne nothing message.
  assert (Hlast : ∀ done_, last_message (objects w) done_ (area_column_not_found a) = message).
  { intros done_. unfold last_message. by destruct (index (objects w)). }
  split_and!.
  - rewrite volume_missing_area by done. simpl.
    by rewrite lookup_insert_eq, Hlast.
  - rewrite floor_area_missing_area by done. simpl.
    by rewrite lookup_insert_eq, Hlast.
  - intros Hgc Hfirst. rewrite courtyard_area_missing_area by done. simpl.
    by rewrite lookup_insert_eq, Hlast.
Qed.

Lemma missing_area_column_message_witness :
  (volume "volume" "area" "height" true Samples.no_area_column).2 = Returned RNone ∧
  columns (objects (volume "volume" "area" "height" true Samples.no_area_column).1)
    !! "volume" = Some [CNum nan; CNum nan] ∧
  stdout (volume "volume" "area" "height" true Samples.no_area_column).1 =
    ["Calculating volumes...";
     "ERROR: Building area column named area not found. Define area_column or set area_calculated to False."].
Proof.
  destruct (missing_area_column_message Binary64.float _ Samples.fpoint
              "volume" "area" "height" Samples.no_area_column)
    as [(Hret & Hcol & Hout) _]; [reflexivity|done|done|].
  split_and!; [exact Hret|exact Hcol|exact Hout].
Defined.

(** C9, as stated, fails for [courtyard_area]: when the first geometry is
    missing, the AttributeError of [.exterior] comes before the KeyError
    and is not caught. *)
Lemma courtyard_area_missing_geometry_raises :
  columns (objects Samples.missing_geometry) !! "area" = None ∧
  (courtyard_area "courtyard" "area" true Samples.missing_geometry).2
    = Raised (AttributeError "exterior").
Proof. split; vm_compute; reflexivity. Qed.

(** C9, amended.  With [area_calculated=True], no area column and an
    output column other than the area column, [volume] and [floor_area]
    raise nothing on any frame, and neither does [courtyard_area] when the
    first geometry has an exterior ring and the output column is not the
    geometry column; yet the frame has changed: it is the frame given with
    the output column set to the missing value (NaN; [None] in the
    geometry column) on every object, and so differs from the frame given
    whenever that column was not there before.  When the frame has rows
    and the first row of [courtyard_area] holds no geometry or a geometry
    without exterior ring, the AttributeError of [.exterior] is raised
    before the area column is read, and is not caught. *)
Theorem missing_area_column_leaves_nan_column :
  ∀ (V : Type) (HV : Number V) (point : Type)
    (c a h : string) (w : world V point),
  let df' := setitem c (replicate (length (index (objects w))) (missing c)) (objects w) in
  (columns (objects w) !! a = None → a ≠ c →
   (let w' := volume c a h true w in
    w'.2 = Returned RNone ∧ objects w'.1 = df' ∧
    ∃ line, stdout w'.1 = stdout w ++ ["Calculating volumes..."; line]) ∧
   (let w' := floor_area c a h true w in
    w'.2 = Returned RObjects ∧ objects w'.1 = df' ∧
    ∃ line, stdout w'.1 = stdout w ++ ["Calculating floor areas..."; line]) ∧
   ("geometry" ≠ c → first_row_has_exterior (objects w) →
    let w' := courtyard_area c a true w in
    w'.2 = Returned RObjects ∧ objects w'.1 = df' ∧
    ∃ line, stdout w'.1 = stdout w ++ ["Calculating courtyard areas..."; line]) ∧
   column_full c df' ∧
   (columns (objects w) !! c = None → df' ≠ objects w)) ∧
  ("geometry" ≠ c → first_row_lacks_exterior (objects w) →
   let w' := courtyard_area c a true w in
   w'.2 = Raised (AttributeError "exterior") ∧ objects w'.1 = df' ∧
   stdout w'.1 = stdout w ++ ["Calculating courtyard areas..."]).
Proof.
  intros V HV point c a h w df'. split.
  - intros Ha Hac. split_and!.
    + rewrite volume_missing_area by done. simpl. eauto.
    + rewrite floor_area_missing_area by done. simpl. eauto.
    + intros Hgc Hfirst. rewrite courtyard_area_missing_area by done. simpl. eauto.
    + eexists. simpl. rewrite lookup_insert_eq. split; [done|]. by rewrite length_replicate.
    + intros Hc Heq.
      assert (Hl : columns df' !! c = columns (objects w) !! c) by by rewrite Heq.
      simpl in Hl. rewrite lookup_insert_eq, Hc in Hl. done.
  - intros Hgc Hfirst. by rewrite courtyard_area_lacks_exterior.
Qed.

Lemma missing_area_column_leaves_nan_column_witness :
  ((floor_area "floor_area" "area" "height" true Samples.no_area_column).2
     = Returned RObjects ∧
   objects (floor_area "floor_area" "area" "height" true Samples.no_area_column).1
     = setitem "floor_area" [CNum nan; CNum nan] (objects Samples.no_area_column)) ∧
  (courtyard_area "courtyard" "area" true Samples.one_line).2
    = Raised (AttributeError "exterior").
Proof.
  split.
  - destruct (proj1 (missing_area_column_leaves_nan_column Binary64.float _ Samples.fpoint
                       "floor_area" "area" "height" Samples.no_area_column))
      as (_ & (Hret & Hobj & _) & _); [reflexivity|done|].
    split; [exact Hret|exact Hobj].
  - destruct (proj2 (missing_area_column_leaves_nan_column Binary64.float _ Samples.fpoint
                       "courtyard" "area" "height" Samples.one_line))
      as (Hret & _); [done|reflexivity|].
    exact Hret.
Defined.

(** * Further results *)

Ltac distinct_labels :=
  repeat (apply NoDup_cons_2; [rewrite ?elem_of_cons, elem_of_nil; intuition lia|]);
  apply NoDup_nil_2.

(** X1.  [area]: with distinct labels and a geometry in every row, the
    call writes the area of each geometry into the column, leaves the rest
    of the frame alone, prints its two lines and returns the frame. *)
Theorem area_fills_column {V : Type} `{Number V} {point : Type}
    (c : string) (w : world V point) (geoms : list (geometry V point)) :
  NoDup (index (objects w)) →
  "geometry" ≠ c →
  geometry_column (objects w) = Some geoms →
  length geoms = length (index (objects w)) →
  area c w =
    (World (Frame (index (objects w))
              (<[c := CNum <$> (geom_area <$> geoms)]> (columns (objects w))))
           (stdout w ++ ["Calculating areas..."; "Areas calculated."]),
     Returned RObjects).
Proof. apply area_run. Qed.

Lemma area_fills_column_witness :
  area "footprint" MoreSamples.two_buildings =
    (World (Frame [0; 1]%Z
              (<["footprint" := [CNum (Samples.f 100); CNum (Samples.f 84)]]>
                 (columns (objects MoreSamples.two_buildings))))
           ["Calculating areas..."; "Areas calculated."],
     Returned RObjects).
Proof.
  apply (area_fills_column "footprint" MoreSamples.two_buildings
           [Samples.footprint; MoreSamples.with_courtyard]).
  - distinct_labels.
  - done.
  - reflexivity.
  - reflexivity.
Defined.

(** X2.  [perimeter]: with distinct labels and a geometry in every row,
    the call writes the length of each geometry into the column, prints
    its two lines and returns the frame. *)
Theorem perimeter_fills_column {V : Type} `{Number V} {point : Type}
    (c : string) (w : world V point) (geoms : list (geometry V point)) :
  NoDup (index (objects w)) →
  "geometry" ≠ c →
  geometry_column (objects w) = Some geoms →
  length geoms = length (index (objects w)) →
  perimeter c w =
    (World (Frame (index (objects w))
              (<[c := CNum <$> (geom_length <$> geoms)]> (columns (objects w))))
           (stdout w ++ ["Calculating perimeters..."; "Perimeters calculated."]),
     Returned RObjects).
Proof. apply perimeter_run. Qed.

Lemma perimeter_fills_column_witness :
  perimeter "perimeter" MoreSamples.two_buildings =
    (World (Frame [0; 1]%Z
              (<["perimeter" := [CNum (Samples.f 40); CNum (Samples.f 56)]]>
                 (columns (objects MoreSamples.two_buildings))))
           ["Calculating perimeters..."; "Perimeters calculated."],
     Returned RObjects).
Proof.
  apply (perimeter_fills_column "perimeter" MoreSamples.two_buildings
           [Samples.footprint; MoreSamples.with_courtyard]).
  - distinct_labels.
  - done.
  - reflexivity.
  - reflexivity.
Defined.





(** X5.  [courtyard_area]: with distinct labels and a polygon with an
    exterior ring in every row, the column holds the area inside the
    exterior ring minus the area, the latter from the area column or from
    the geometry as [area_calculated] says. *)
Theorem courtyard_area_formula {V : Type} `{Number V} {point : Type}
    (c a : string) (b : bool) (w : world V point)
    (geoms : list (geometry V point)) (exts areas : list V) :
  NoDup (index (objects w)) →
  "geometry" ≠ c → area_source_column a b ≠ c →
  geometry_column (objects w) = Some geoms →
  mapM exterior_area geoms = Some exts →
  area_source (objects w) a b = Some areas →
  length geoms = length (index (objects w)) →
  length areas = length (index (objects w)) →
  courtyard_area c a b w =
    (World (Frame (index (objects w))
              (<[c := CNum <$> zip_with sub exts areas]> (columns (objects w))))
           (stdout w ++ ["Calculating courtyard areas..."; "Core area indices calculated."]),
     Returned RObjects).
Proof. apply courtyard_area_run. Qed.

Lemma courtyard_area_formula_witness :
  courtyard_area "courtyard" "area" true MoreSamples.two_buildings =
    (World (Frame [0; 1]%Z
              (<["courtyard" := [CNum (sub (Samples.f 100) (Samples.f 100));
                                 CNum (sub (Samples.f 100) (Samples.f 84))]]>
                 (columns (objects MoreSamples.two_buildings))))
           ["Calculating courtyard areas..."; "Core area indices calculated."],
     Returned RObjects).
Proof.
  apply (courtyard_area_formula "courtyard" "area" true MoreSamples.two_buildings
           [Samples.footprint; MoreSamples.with_courtyard]
           [Samples.f 100; Samples.f 100] [Samples.f 100; Samples.f 84]).
  - distinct_labels.
  - done.
  - done.
  - reflexivity.
  - reflexivity.
  - reflexivity.
  - reflexivity.
  - reflexivity.
Defined.

(** X6.  With [area_calculated=True], [volume], [floor_area] and
    [courtyard_area] never raise a KeyError, whatever the frame: the
    handler catches every one and prints instead. *)
Theorem guarded_calls_raise_no_KeyError {V : Type} `{Number V} {point : Type}
    (c a h : string) (w : world V point) (k : key) :
  (volume c a h true w).2 ≠ Raised (KeyError k) ∧
  (floor_area c a h true w).2 ≠ Raised (KeyError k) ∧
  (courtyard_area c a true w).2 ≠ Raised (KeyError k).
Proof.
  split_and!.
  - apply (guarded_no_KeyError (λ _, None) (Volume c a h true)). by eexists.
  - apply (guarded_no_KeyError (λ _, None) (FloorArea c a h true)). by eexists.
  - apply (guarded_no_KeyError (λ _, None) (CourtyardArea c a true)). by eexists.
Qed.

(** X7.  With [area_calculated=True], an area column that is there and a
    height column that is not, [volume] and [floor_area] on a frame with
    rows print the message about the area column, leave the new column
    with its missing values and return as usual. *)
Theorem missing_height_column_blames_area {V : Type} `{Number V} {point : Type}
    (c a h : string) (w : world V point) :
  column_full a (objects w) → columns (objects w) !! h = None →
  a ≠ c → h ≠ c → index (objects w) ≠ [] →
  volume c a h true w =
    (World (setitem c (replicate (length (index (objects w))) (missing c)) (objects w))
           (stdout w ++ ["Calculating volumes..."; area_column_not_found a]),
     Returned RNone) ∧
  floor_area c a h true w =
    (World (setitem c (replicate (length (index (objects w))) (missing c)) (objects w))
           (stdout w ++ ["Calculating floor areas..."; area_column_not_found a]),
     Returned RObjects).
Proof. apply guarded_missing_height. Qed.

Lemma missing_height_column_blames_area_witness :
  volume "volume" "area" "height" true MoreSamples.no_height_column =
    (World (setitem "volume" [CNum nan; CNum nan] (objects MoreSamples.no_height_column))
           ["Calculating volumes..."; area_column_not_found "area"],
     Returned RNone).
Proof.
  refine (proj1 (missing_height_column_blames_area "volume" "area" "height"
                   MoreSamples.no_height_column _ _ _ _ _)).
  - eexists. split; reflexivity.
  - reflexivity.
  - done.
  - done.
  - done.
Defined.

(** X8.  With [area_calculated=False] and no height column, [volume] and
    [floor_area] on a frame whose first row has a geometry raise the
    KeyError of the height column; the new column keeps its missing
    values and only the first line is printed. *)
Theorem missing_height_column_raises {V : Type} `{Number V} {point : Type}
    (c a h : string) (w : world V point)
    (gcol : list (cell V point)) (g : geometry V point) :
  columns (objects w) !! "geometry" = Some gcol → gcol !! 0 = Some (CGeom g) →
  columns (objects w) !! h = None →
  "geometry" ≠ c → h ≠ c → index (objects w) ≠ [] →
  volume c a h false w =
    (World (setitem c (replicate (length (index (objects w))) (missing c)) (objects w))
           (stdout w ++ ["Calculating volumes..."]),
     Raised (KeyError (KStr h))) ∧
  floor_area c a h false w =
    (World (setitem c (replicate (length (index (objects w))) (missing c)) (objects w))
           (stdout w ++ ["Calculating floor areas..."]),
     Raised (KeyError (KStr h))).
Proof. apply unguarded_missing_height. Qed.

Lemma missing_height_column_raises_witness :
  floor_area "floor_area" "area" "height" false MoreSamples.no_height_column =
    (World (setitem "floor_area" [CNum nan; CNum nan]
              (objects MoreSamples.no_height_column))
           ["Calculating floor areas..."],
     Raised (KeyError (KStr "height"))).
Proof.
  refine (proj2 (missing_height_column_raises "floor_area" "area" "height"
                   MoreSamples.no_height_column
                   [CGeom Samples.footprint; CGeom MoreSamples.with_courtyard]
                   Samples.footprint _ _ _ _ _ _)).
  - reflexivity.
  - reflexivity.
  - reflexivity.
  - done.
  - done.
  - done.
Defined.

(** X9.  The calls that read a column outside a [try] ([area],
    [perimeter], [longest_axis_length] and the three functions with
    [area_calculated=False] read "geometry", [height_os] its original
    column, [height_prg] its type column): when that column is not in the
    frame and the frame has rows, the call raises the KeyError of that
    column after its first line, the new column holding missing values. *)
Theorem missing_input_column_raises {V : Type} `{Number V} {point : Type}
    (make_circle : list point → option (V * V * V))
    (call : metric_call) (w : world V point) (col : string) :
  first_read call = Some col → col ≠ column_of call →
  columns (objects w) !! col = None → index (objects w) ≠ [] →
  run_call make_circle call w =
    (World (setitem (column_of call)
              (replicate (length (index (objects w))) (missing (column_of call))) (objects w))
           (stdout w ++ [first_line call]),
     Raised (KeyError (KStr col))).
Proof. apply run_call_missing_input. Qed.

Lemma missing_input_column_raises_witness :
  height_os "height" "relh2" Samples.three_plots =
    (World (setitem "height" [CNum nan; CNum nan; CNum nan] (objects Samples.three_plots))
           ["Calculating heights..."],
     Raised (KeyError (KStr "relh2"))).
Proof.
  apply (missing_input_column_raises MoreSamples.some_circle
           (HeightOs "height" "relh2") Samples.three_plots "relh2").
  - reflexivity.
  - done.
  - reflexivity.
  - done.
Defined.

(** X10.  On a frame without rows every call returns what it returns on
    success ([None] for [effective_mesh] and for [volume] with
    [area_calculated=True], the frame otherwise), creates its column,
    empty, and prints its first and its closing line. *)
Theorem call_on_empty_frame {V : Type} `{Number V} {point : Type}
    (make_circle : list point → option (V * V * V))
    (call : metric_call) (w : world V point) :
  index (objects w) = [] →
  run_call make_circle call w =
    (World (setitem (column_of call) [] (objects w))
           (stdout w ++ first_line call :: closing_lines call),
     Returned (returned_by call)).
Proof. apply run_call_no_rows. Qed.

Lemma call_on_empty_frame_witness :
  volume "volume" "area" "height" true MoreSamples.no_rows =
    (World (setitem "volume" [] (objects MoreSamples.no_rows))
           ["Calculating volumes..."; "Volumes calculated."],
     Returned RNone).
Proof.
  apply (call_on_empty_frame MoreSamples.some_circle
           (Volume "volume" "area" "height" true) MoreSamples.no_rows).
  reflexivity.
Defined.




(** X13.  After [area] has written column [a], [volume] and [floor_area]
    leave the same frame and print the same lines with
    [area_calculated=True] on [a] as with [area_calculated=False]. *)
Theorem area_then_flag_is_irrelevant {V : Type} `{Number V} {point : Type}
    (c a h : string) (w : world V point)
    (geoms : list (geometry V point)) (heights : list V) :
  NoDup (index (objects w)) →
  geometry_column (objects w) = Some geoms →
  numeric_column (objects w) h = Some heights →
  length geoms = length (index (objects w)) →
  length heights = length (index (objects w)) →
  "geometry" ≠ a → h ≠ a → a ≠ c → "geometry" ≠ c → h ≠ c →
  let w1 := (area a w).1 in
  (volume c a h true w1).1 = (volume c a h false w1).1 ∧
  (floor_area c a h true w1).1 = (floor_area c a h false w1).1.
Proof. apply area_then_flag. Qed.

Lemma area_then_flag_is_irrelevant_witness :
  let w1 := (area "area" Samples.no_area_column).1 in
  (volume "volume" "area" "height" true w1).1
    = (volume "volume" "area" "height" false w1).1 ∧
  (floor_area "volume" "area" "height" true w1).1
    = (floor_area "volume" "area" "height" false w1).1.
Proof.
  apply (area_then_flag_is_irrelevant "volume" "area" "height" Samples.no_area_column
           [Samples.footprint; Samples.footprint] [Samples.f 9; Samples.f 12]).
  - distinct_labels.
  - reflexivity.
  - reflexivity.
  - reflexivity.
  - reflexivity.
  - done.
  - done.
  - done.
  - done.
  - done.
Defined.

(** X14.  After [area] has written column [a], [courtyard_area] does the
    same with [area_calculated=True] on [a] as with
    [area_calculated=False]. *)
Theorem area_then_courtyard_flag_is_irrelevant {V : Type} `{Number V} {point : Type}
    (c a : string) (w : world V point)
    (geoms : list (geometry V point)) (exts : list V) :
  NoDup (index (objects w)) →
  geometry_column (objects w) = Some geoms →
  mapM exterior_area geoms = Some exts →
  length geoms = length (index (objects w)) →
  "geometry" ≠ a → a ≠ c → "geometry" ≠ c →
  let w1 := (area a w).1 in
  courtyard_area c a true w1 = courtyard_area c a false w1.
Proof. apply area_then_courtyard_flag. Qed.

Lemma area_then_courtyard_flag_is_irrelevant_witness :
  let w1 := (area "area" Samples.no_area_column).1 in
  courtyard_area "courtyard" "area" true w1 = courtyard_area "courtyard" "area" false w1.
Proof.
  apply (area_then_courtyard_flag_is_irrelevant "courtyard" "area" Samples.no_area_column
           [Samples.footprint; Samples.footprint] [Samples.f 100; Samples.f 100]).
  - distinct_labels.
  - reflexivity.
  - reflexivity.
  - reflexivity.
  - done.
  - done.
  - done.
Defined.

(** X15.  [area] on a frame whose labels repeat: the call still returns,
    and every row holds the area of the last geometry under its label,
    because [loc] writes to all the rows a label names. *)
Theorem area_duplicate_labels_last_wins {V : Type} `{Number V} {point : Type}
    (c : string) (w : world V point) (geoms : list (geometry V point)) :
  "geometry" ≠ c →
  geometry_column (objects w) = Some geoms →
  length geoms = length (index (objects w)) →
  ∃ col,
    area c w =
      (World (Frame (index (objects w)) (<[c := col]> (columns (objects w))))
             (stdout w ++ ["Calculating areas..."; "Areas calculated."]),
       Returned RObjects) ∧
    length col = length (index (objects w)) ∧
    ∀ i k j, index (objects w) !! i = Some k →
             last_position (index (objects w)) k = Some j →
             col !! i = (λ g, CNum (geom_area g)) <$> geoms !! j.
Proof. apply area_last_wins. Qed.

Lemma area_duplicate_labels_last_wins_witness :
  ∃ col,
    area "area" MoreSamples.duplicate_labels =
      (World (Frame [5; 5; 7]%Z (<["area" := col]> (columns (objects MoreSamples.duplicate_labels))))
             ["Calculating areas..."; "Areas calculated."],
       Returned RObjects) ∧
    length col = 3 ∧
    ∀ i k j, [5; 5; 7]%Z !! i = Some k →
             last_position [5; 5; 7]%Z k = Some j →
             col !! i = (λ g, CNum (geom_area g)) <$>
                          [Samples.footprint; MoreSamples.with_courtyard; Samples.footprint] !! j.
Proof.
  apply (area_duplicate_labels_last_wins "area" MoreSamples.duplicate_labels
           [Samples.footprint; MoreSamples.with_courtyard; Samples.footprint]).
  - done.
  - reflexivity.
  - reflexivity.
Defined.

(** X16.  [area] on a frame where a row has no geometry (a missing value
    or a number in its place): the call raises AttributeError at that row;
    the rows before it hold their areas, that row and the rows after it
    hold the missing value (NaN), and the closing line is not printed. *)
Theorem area_stops_at_missing_geometry {V : Type} `{Number V} {point : Type}
    (c : string) (w : world V point) (geoms : list (geometry V point))
    (x : cell V point) (rest : list (cell V point)) (k : Z) :
  NoDup (index (objects w)) →
  "geometry" ≠ c →
  columns (objects w) !! "geometry" = Some ((CGeom <$> geoms) ++ x :: rest) →
  (∀ g, x ≠ CGeom g) →
  index (objects w) !! length geoms = Some k →
  area c w =
    (World (Frame (index (objects w))
              (<[c := (CNum <$> (geom_area <$> geoms)) ++
                      replicate (length (index (objects w)) - length geoms) (missing c)]>
                 (columns (objects w))))
           (stdout w ++ ["Calculating areas..."]),
     Raised (AttributeError "area")).
Proof. apply area_stops. Qed.

Lemma area_stops_at_missing_geometry_witness :
  area "area" MoreSamples.second_geometry_missing =
    (World (Frame [0; 1; 2]%Z
              (<["area" := [CNum (Samples.f 100); CNum nan; CNum nan]]>
                 (columns (objects MoreSamples.second_geometry_missing))))
           ["Calculating areas..."],
     Raised (AttributeError "area")).
Proof.
  apply (area_stops_at_missing_geometry "area" MoreSamples.second_geometry_missing
           [Samples.footprint] CNone [CGeom MoreSamples.with_courtyard] 1%Z).
  - distinct_labels.
  - done.
  - reflexivity.
  - done.
  - reflexivity.
Defined.



(** X18.  [effective_mesh] has no handler: when the area column is not in
    the frame and the weights know the first row, the call raises the
    KeyError of the area column. *)
Theorem effective_mesh_missing_area_column_raises {V : Type} `{Number V} {point : Type}
    (c a : string) (sw : weights) (w : world V point) (k : Z) (rest : list Z) :
  a ≠ c →
  index (objects w) = k :: rest →
  is_Some (neighbors sw !! k) →
  columns (objects w) !! a = None →
  effective_mesh c sw a w =
    (World (setitem c (replicate (length (index (objects w))) (missing c)) (objects w))
           (stdout w ++ ["Calculating effective mesh size..."]),
     Raised (KeyError (KStr a))).
Proof. apply effective_mesh_missing_area. Qed.

Lemma effective_mesh_missing_area_column_raises_witness :
  effective_mesh "mesh" Samples.all_neighbours "area" Samples.no_area_column =
    (World (setitem "mesh" [CNum nan; CNum nan] (objects Samples.no_area_column))
           ["Calculating effective mesh size..."],
     Raised (KeyError (KStr "area"))).
Proof.
  apply (effective_mesh_missing_area_column_raises "mesh" "area" Samples.all_neighbours
           Samples.no_area_column 0%Z [1%Z]).
  - done.
  - reflexivity.
  - by eexists.
  - reflexivity.
Defined.

(** X19.  [longest_axis_length] on a frame where the convex hull of a
    geometry has no exterior ring, or where [make_circle] gives no circle
    for it: the call raises AttributeError, respectively TypeError, at
    that row; the rows before it hold their axes, that row and the rows
    after it hold the missing value (NaN). *)
Theorem longest_axis_length_stops_at_bad_hull {V : Type} `{Number V} {point : Type}
    (make_circle : list point → option (V * V * V))
    (c : string) (w : world V point)
    (geoms : list (geometry V point)) (axes : list V)
    (g : geometry V point) (rest : list (cell V point)) (k : Z) (e : exn) :
  NoDup (index (objects w)) →
  "geometry" ≠ c →
  columns (objects w) !! "geometry" = Some ((CGeom <$> geoms) ++ CGeom g :: rest) →
  mapM (axis_of make_circle) geoms = Some axes →
  index (objects w) !! length geoms = Some k →
  (hull_exterior_coords g = None ∧ e = AttributeError "exterior") ∨
  (∃ pts, hull_exterior_coords g = Some pts ∧ make_circle pts = None ∧ e = TypeError) →
  longest_axis_length make_circle c w =
    (World (Frame (index (objects w))
              (<[c := (CNum <$> axes) ++
                      replicate (length (index (objects w)) - length geoms) (missing c)]>
                 (columns (objects w))))
           (stdout w ++ ["Calculating the longest axis..."]),
     Raised e).
Proof. apply longest_axis_length_stops. Qed.

Lemma longest_axis_length_stops_at_bad_hull_witness :
  longest_axis_length MoreSamples.some_circle "axis" MoreSamples.second_is_point =
    (World (Frame [0; 1]%Z
              (<["axis" := [CNum (mul (Samples.f 7) (Samples.f 2)); CNum nan]]>
                 (columns (objects MoreSamples.second_is_point))))
           ["Calculating the longest axis..."],
     Raised (AttributeError "exterior")).
Proof.
  apply (longest_axis_length_stops_at_bad_hull MoreSamples.some_circle "axis"
           MoreSamples.second_is_point [Samples.footprint]
           [mul (Samples.f 7) (Samples.f 2)] MoreSamples.a_point [] 1%Z).
  - distinct_labels.
  - done.
  - reflexivity.
  - reflexivity.
  - reflexivity.
  - left. split; reflexivity.
Defined.

(** X20.  [volume] and [floor_area] with [area_calculated=True] and the
    area column named as the output column: the areas are overwritten
    before they are read, and, NaN times anything being NaN, the column
    ends up all NaN although the call reports success. *)
Theorem volume_into_its_area_column {V : Type} `{Number V} {point : Type}
    (c h : string) (w : world V point) (heights : list V) :
  (∀ y : V, mul nan y = nan) →
  NoDup (index (objects w)) →
  c ≠ "geometry" → h ≠ c →
  numeric_column (objects w) h = Some heights →
  length heights = length (index (objects w)) →
  volume c c h true w =
    (World (setitem c (replicate (length (index (objects w))) (CNum nan)) (objects w))
           (stdout w ++ ["Calculating volumes..."; "Volumes calculated."]),
     Returned RNone) ∧
  floor_area c c h true w =
    (World (setitem c (replicate (length (index (objects w))) (CNum nan)) (objects w))
           (stdout w ++ ["Calculating floor areas..."; "Floor areas calculated."]),
     Returned RObjects).
Proof. apply volume_over_its_area. Qed.

Lemma volume_into_its_area_column_witness :
  volume "area" "area" "height" true Samples.one_building =
    (World (setitem "area" [CNum nan] (objects Samples.one_building))
           ["Calculating volumes..."; "Volumes calculated."],
     Returned RNone).
Proof.
  refine (proj1 (volume_into_its_area_column "area" "height" Samples.one_building
                   [Samples.f 9] _ _ _ _ _ _)).
  - intros y. by destruct y.
  - apply NoDup_singleton.
  - done.
  - done.
  - reflexivity.
  - reflexivity.
Defined.

(** X21.  Every call prints its first line and keeps what was printed
    before.  A call that raises has printed nothing else; a call that
    returns has printed after it either its closing line ([effective_mesh]
    has none) or, for the three functions with a handler, the message of
    the handler in its place. *)
Theorem lines_of_a_call {V : Type} `{Number V} {point : Type}
    (make_circle : list point → option (V * V * V))
    (call : metric_call) (w : world V point) :
  let r := run_call make_circle call w in
  match r.2 with
  | Returned _ =>
      stdout r.1 = stdout w ++ first_line call :: closing_lines call ∨
      ∃ l, error_line call = Some l ∧ stdout r.1 = stdout w ++ [first_line call; l]
  | Raised _ => stdout r.1 = stdout w ++ [first_line call]
  end.
Proof. apply run_call_prints. Qed.

(** X22.  [longest_axis_length]: with distinct labels, when every object
    is a geometry whose convex hull has an exterior ring for which
    [make_circle] returns a circle, the call returns the frame, prints its
    two lines, and the column holds, per object, the radius of that circle
    times 2. *)
Theorem longest_axis_length_formula :
  ∀ (V : Type) (HV : Number V) (point : Type)
    (make_circle : list point → option (V * V * V))
    (c : string) (w : world V point) (geoms : list (geometry V point)) (axes : list V),
  NoDup (index (objects w)) →
  "geometry" ≠ c →
  geometry_column (objects w) = Some geoms →
  length geoms = length (index (objects w)) →
  mapM (axis_of make_circle) geoms = Some axes →
  longest_axis_length make_circle c w =
    (World (Frame (index (objects w)) (<[c := CNum <$> axes]> (columns (objects w))))
           (stdout w ++ ["Calculating the longest axis..."; "The longest axis calculated."]),
     Returned RObjects).
Proof. intros V HV point make_circle. apply longest_axis_length_run. Qed.

Lemma longest_axis_length_formula_witness :
  longest_axis_length exact_make_circle "longest_axis" Samples.one_square =
    (World (Frame [0%Z] (<["longest_axis" := [CNum (Some (sqrt 2 * 2)%R)]]>
                           (columns (objects Samples.one_square))))
           ["Calculating the longest axis..."; "The longest axis calculated."],
     Returned RObjects).
Proof.
  apply (longest_axis_length_formula Exact.num _ MEC.point exact_make_circle
           "longest_axis" Samples.one_square [Samples.square2] [Some (sqrt 2 * 2)%R]).
  - apply NoDup_singleton.
  - done.
  - reflexivity.
  - reflexivity.
  - apply square_axis.
Defined.



(** X24.  [height_os] on an original column that holds a geometry at some
    row, after numbers and missing values: a float column does not take a
    geometry, the call raises TypeError at that row; the rows before it
    hold their values, that row and the rows after it the missing value. *)
Theorem height_os_rejects_geometry {V : Type} `{Number V} {point : Type}
    (c o : string) (w : world V point)
    (vs : list (cell V point)) (g : geometry V point) (rest : list (cell V point)) (k : Z) :
  NoDup (index (objects w)) →
  o ≠ c → c ≠ "geometry" →
  columns (objects w) !! o = Some (vs ++ CGeom g :: rest) →
  Forall number_or_None vs →
  index (objects w) !! length vs = Some k →
  height_os c o w =
    (World (Frame (index (objects w))
              (<[c := (to_column c <$> vs) ++
                      replicate (length (index (objects w)) - length vs) (missing c)]>
                 (columns (objects w))))
           (stdout w ++ ["Calculating heights..."]),
     Raised TypeError).
Proof. apply height_os_stops. Qed.

Lemma height_os_rejects_geometry_witness :
  height_os "shape" "geometry" Samples.one_building =
    (World (Frame [0%Z] (<["shape" := [CNum nan]]> (columns (objects Samples.one_building))))
           ["Calculating heights..."],
     Raised TypeError).
Proof.
  apply (height_os_rejects_geometry "shape" "geometry" Samples.one_building
           [] Samples.footprint [] 0%Z).
  - apply NoDup_singleton.
  - done.
  - done.
  - reflexivity.
  - apply Forall_nil_2.
  - reflexivity.
Defined.

(** X25.  A call that starts its rows with the geometry ([area],
    [perimeter], [longest_axis_length], [courtyard_area], and [volume] and
    [floor_area] with [area_calculated=False]) and is told to write into
    the column "geometry": on a frame with rows the preamble leaves [None]
    in every row of the geometry column, and the call raises the
    AttributeError of the first attribute it takes from the geometry. *)
Theorem call_into_geometry_column {V : Type} `{Number V} {point : Type}
    (make_circle : list point → option (V * V * V))
    (call : metric_call) (w : world V point) (attr : string) :
  geometry_attribute call = Some attr → column_of call = "geometry" →
  index (objects w) ≠ [] →
  run_call make_circle call w =
    (World (setitem "geometry" (replicate (length (index (objects w))) CNone) (objects w))
           (stdout w ++ [first_line call]),
     Raised (AttributeError attr)).
Proof. apply run_call_into_geometry. Qed.

Lemma call_into_geometry_column_witness :
  area "geometry" Samples.one_building =
    (World (setitem "geometry" [CNone] (objects Samples.one_building))
           ["Calculating areas..."],
     Raised (AttributeError "area")).
Proof.
  apply (call_into_geometry_column MoreSamples.some_circle (Area "geometry")
           Samples.one_building "area").
  - reflexivity.
  - reflexivity.
  - done.
Defined.
